(** * RobinhoodTradeAnalysis: the reconciliation engine of [app.py]

    A shallow embedding of [allowed_file], [extract_option_details],
    [analyze_performance] and [generate_summary] (file [app.py])
    together with the properties of these functions.

    Conventions of the embedding.

    - Python [str] is [string], a character above 127 standing for a
      character outside ASCII.  The character classes [\w], [\d] and
      [\s] of the [re] module are given on the 7-bit ASCII range;
      Python's classes hold more characters above it, so a statement
      that depends on a character being outside a class is made for
      ASCII text.
    - The table is a DataFrame whose six columns hold text or the
      missing value (NaN) in each cell: [option string] cells.
    - What pandas, numpy and Python contribute beyond text is a
      parameter of the engine, the class [Platform]: the numbers
      ([int64], [float64], [int], [float]) with their arithmetic, the
      reading of a text column as numbers, the test the [.str] accessor
      makes before it takes a column, and the default of [regex] in
      [Series.str.replace].  The general statements hold on every
      platform.  The worked examples are computed on [Exact], a
      platform whose numbers are exact rationals.
    - A Python [dict] is an association list in insertion order; writing
      an existing key replaces the value in place.
    - An uncaught Python exception is the result [None] of the function
      that raises it. *)

From Stdlib Require Import Bool Arith ZArith List Lia.
From Stdlib Require Import Ascii String.
From Stdlib Require Import QArith Qcanon.
Import ListNotations.

Open Scope list_scope.
Open Scope string_scope.

(** ** Characters and strings *)

Module Chars.

Definition code (c : ascii) : nat := nat_of_ascii c.

Definition between (lo hi : nat) (c : ascii) : bool :=
  (lo <=? code c)%nat && (code c <=? hi)%nat.

(** [\d] *)
Definition is_digit (c : ascii) : bool := between 48 57 c.

(** [\w]: letters, digits and the underscore *)
Definition is_word (c : ascii) : bool :=
  between 97 122 c || between 65 90 c || is_digit c || (code c =? 95)%nat.

(** [\s]: space, [\t\n\v\f\r] and the separators 28..31 *)
Definition is_space (c : ascii) : bool :=
  (code c =? 32)%nat || between 9 13 c || between 28 31 c.

(** [[PC]] *)
Definition is_PC (c : ascii) : bool :=
  Ascii.eqb c "P" || Ascii.eqb c "C".

Definition is_char (x : ascii) (c : ascii) : bool := Ascii.eqb c x.

(** [[\$,]] *)
Definition is_dollar_or_comma (c : ascii) : bool :=
  Ascii.eqb c "$" || Ascii.eqb c ",".

(** [[^)]] *)
Definition not_rparen (c : ascii) : bool := negb (Ascii.eqb c ")").

(** [[^$,]] and [[^(]] *)
Definition not_dollar_comma (c : ascii) : bool := negb (is_dollar_or_comma c).
Definition not_lparen (c : ascii) : bool := negb (is_char "(" c).

(** [[^.]] *)
Definition not_dot (c : ascii) : bool := negb (Ascii.eqb c ".").

(** any character but the blank that separates the parts of a key *)
Definition not_blank (c : ascii) : bool := negb (Ascii.eqb c " ").

(** a character of the ASCII range *)
Definition is_ascii (c : ascii) : bool := (code c <? 128)%nat.

End Chars.
Import Chars.

Module Str.

Fixpoint all (p : ascii -> bool) (s : string) : bool :=
  match s with
  | EmptyString => true
  | String c s' => p c && all p s'
  end.

(** [s] is empty or starts with a character outside [p] *)
Definition stops (p : ascii -> bool) (s : string) : bool :=
  match s with
  | EmptyString => true
  | String c _ => negb (p c)
  end.

(** [s] starts with a character of [p] *)
Definition starts (p : ascii -> bool) (s : string) : bool :=
  match s with
  | EmptyString => false
  | String c _ => p c
  end.

Definition nonempty (s : string) : bool :=
  match s with EmptyString => false | String _ _ => true end.

(** [sub in s] for Python strings *)
Fixpoint contains (sub s : string) : bool :=
  if String.prefix sub s then true
  else match s with
       | EmptyString => false
       | String _ s' => contains sub s'
       end.

Fixpoint filter (p : ascii -> bool) (s : string) : string :=
  match s with
  | EmptyString => EmptyString
  | String c s' => if p c then String c (filter p s') else filter p s'
  end.

Fixpoint drop_while (p : ascii -> bool) (s : string) : string :=
  match s with
  | EmptyString => EmptyString
  | String c s' => if p c then drop_while p s' else s
  end.

(** [s.replace(old, new)] for a non-empty [old]: every occurrence, left
    to right, none overlapping the one before.  After an occurrence of
    [n] characters the next [n - 1] characters belong to it and are
    passed over. *)
Fixpoint replace_from (skip : nat) (old new s : string) : string :=
  match s with
  | EmptyString => EmptyString
  | String c s' =>
      match skip with
      | S n => replace_from n old new s'
      | O =>
          if String.prefix old s
          then new ++ replace_from (String.length old - 1) old new s'
          else String c (replace_from 0 old new s')
      end
  end.

Definition replace (old new s : string) : string := replace_from 0 old new s.

End Str.

(** ** A backtracking matcher for the fragment of [re] the program uses

    The patterns of [app.py] are built from single-character classes,
    greedy [+] over a class, concatenation and capturing groups.  The
    matcher tries the alternatives in the order of Python's engine: a
    greedy repetition first takes as many characters as it can and gives
    them back one at a time while the rest of the pattern fails. *)

Module Re.

Inductive regex : Type :=
| Cls (p : ascii -> bool)
| Plus (p : ascii -> bool)
| Seq (r1 r2 : regex)
| Grp (r : regex).

Section Matcher.
Context {A : Type}.

(** continuation: text matched, text left, groups captured *)
Definition cont : Type := string -> string -> list string -> option A.

Fixpoint greedy (p : ascii -> bool) (s acc : string)
         (k : string -> string -> option A) : option A :=
  match s with
  | String c s' =>
      if p c then
        match greedy p s' (acc ++ String c EmptyString) k with
        | Some x => Some x
        | None => k acc s
        end
      else k acc s
  | EmptyString => k acc s
  end.

Definition plus (p : ascii -> bool) (s : string)
           (k : string -> string -> option A) : option A :=
  match s with
  | String c s' => if p c then greedy p s' (String c EmptyString) k else None
  | EmptyString => None
  end.

Fixpoint rmatch (r : regex) (s : string) (k : cont) : option A :=
  match r with
  | Cls p =>
      match s with
      | String c s' => if p c then k (String c EmptyString) s' [] else None
      | EmptyString => None
      end
  | Plus p => plus p s (fun m rest => k m rest [])
  | Seq r1 r2 =>
      rmatch r1 s (fun m1 rest1 g1 =>
        rmatch r2 rest1 (fun m2 rest2 g2 =>
          k (m1 ++ m2) rest2 (g1 ++ g2)%list))
  | Grp r' => rmatch r' s (fun m rest g => k m rest (m :: g))
  end.
End Matcher.

(** a match anchored at the start of [s]: text matched, text left, groups *)
Definition match_at (r : regex) (s : string)
  : option (string * string * list string) :=
  rmatch r s (fun m rest g => Some (m, rest, g)).

(** [re.search(r, s)]: the leftmost match; its groups *)
Fixpoint search (r : regex) (s : string) : option (list string) :=
  match match_at r s with
  | Some (_, _, g) => Some g
  | None =>
      match s with
      | String _ s' => search r s'
      | EmptyString => None
      end
  end.

(** replacement templates: literal text and group references [\n] *)
Inductive piece : Type :=
| Lit (s : string)
| Ref (n : nat).

Fixpoint expand (t : list piece) (g : list string) : string :=
  match t with
  | [] => EmptyString
  | Lit s :: t' => s ++ expand t' g
  | Ref n :: t' => nth (n - 1) g EmptyString ++ expand t' g
  end.

(** [re.sub(r, t, s)]: every non-overlapping match, left to right.
    After a match of [n] characters the next [n - 1] characters belong
    to it and are passed over.  (No pattern of the program matches the
    empty string.) *)
Fixpoint sub_from (skip : nat) (r : regex) (t : list piece) (s : string) : string :=
  match s with
  | EmptyString => EmptyString
  | String c s' =>
      match skip with
      | S n => sub_from n r t s'
      | O =>
          match match_at r s with
          | Some (m, _, g) => expand t g ++ sub_from (String.length m - 1) r t s'
          | None => String c (sub_from 0 r t s')
          end
      end
  end.

Definition sub (r : regex) (t : list piece) (s : string) : string :=
  sub_from 0 r t s.

(** the characters a match of [r] can begin with *)
Fixpoint first (r : regex) (c : ascii) : bool :=
  match r with
  | Cls p => p c
  | Plus p => p c
  | Seq r1 _ => first r1 c
  | Grp r' => first r' c
  end.

(** the language of a pattern, with the groups a match captures *)
Inductive lang : regex -> string -> list string -> Prop :=
| lang_cls p c : p c = true -> lang (Cls p) (String c EmptyString) []
| lang_plus p m : Str.nonempty m = true -> Str.all p m = true -> lang (Plus p) m []
| lang_seq r1 r2 m1 m2 g1 g2 :
    lang r1 m1 g1 -> lang r2 m2 g2 -> lang (Seq r1 r2) (m1 ++ m2) (g1 ++ g2)%list
| lang_grp r m g : lang r m g -> lang (Grp r) m (m :: g).

End Re.
Import Re.

(** ** [extract_option_details] *)

(** [\d{2}/\d{2}/\d{2}] *)
Definition date_re : regex :=
  Seq (Cls is_digit) (Seq (Cls is_digit) (Seq (Cls (is_char "/"))
  (Seq (Cls is_digit) (Seq (Cls is_digit) (Seq (Cls (is_char "/"))
  (Seq (Cls is_digit) (Cls is_digit))))))).

(** [r'(\w+)\s+(\d{2}/\d{2}/\d{2})\s+([PC])\s+(\d+)'] *)
Definition option_re : regex :=
  Seq (Grp (Plus is_word))
  (Seq (Plus is_space)
  (Seq (Grp date_re)
  (Seq (Plus is_space)
  (Seq (Grp (Cls is_PC))
  (Seq (Plus is_space)
       (Grp (Plus is_digit))))))).

(** The four groups of the match, or [None] for the tuple
    [(None, None, None, None)] the source returns when nothing matches. *)
Definition details : Type := option (string * string * string * string).

Definition extract_option_details (description : string) : details :=
  match search option_re description with
  | Some [ticker; expiration; option_type; strike] =>
      Some (ticker, expiration, option_type, strike)
  | _ => None
  end.

(** ** Exact numbers, for the worked examples

    A rational, or [None] for NaN.  This is the arithmetic of the
    platform [Exact] below; rounding, overflow and infinities are not
    part of it. *)

Module Num.

Definition num : Type := option Qc.

Definition NaN : num := None.
Definition of_Z (z : Z) : num := Some (Q2Qc (inject_Z z)).
Definition of_Q (q : Q) : num := Some (Q2Qc q).

Definition lift2 (f : Qc -> Qc -> Qc) (x y : num) : num :=
  match x, y with
  | Some a, Some b => Some (f a b)
  | _, _ => None
  end.

Definition add : num -> num -> num := lift2 Qcplus.
Definition sub : num -> num -> num := lift2 Qcminus.
Definition mul : num -> num -> num := lift2 Qcmult.

(** [x / y]; the program divides only behind the test [y != 0] *)
Definition div (x y : num) : num :=
  match x, y with
  | Some a, Some b => if Qc_eq_bool b 0 then None else Some (Qcdiv a b)
  | _, _ => None
  end.

(** [x != 0]; NaN differs from every number *)
Definition nonzero (x : num) : bool :=
  match x with
  | Some a => negb (Qc_eq_bool a 0)
  | None => true
  end.

(** [x > 0]; NaN is greater than nothing *)
Definition is_positive (x : num) : bool :=
  match x with
  | Some a => match (this a ?= 0)%Q with Gt => true | _ => false end
  | None => false
  end.

Definition is_nan (x : num) : bool :=
  match x with
  | Some _ => false
  | None => true
  end.

Definition eqb (x y : num) : bool :=
  match x, y with
  | Some a, Some b => Qc_eq_bool a b
  | None, None => true
  | _, _ => false
  end.

(** the numbers of a list added up from the left *)
Definition sum (l : list num) : num := fold_left add l (of_Z 0).

End Num.
Import Num.

(** ** Reading a text cell as an exact number

    The decimal literals of the C parser behind [to_numeric]: optional
    blanks, an optional sign, digits with an optional fraction, an
    optional exponent, optional blanks.  Anything else is read as NaN.
    (The words [inf] and [nan] are not numbers here: the exact numbers
    have no infinity.) *)

Module ToNumeric.

Definition digit_val (c : ascii) : Z := Z.of_nat (code c - 48).

(** reads a run of digits: value so far, number of digits, text left *)
Fixpoint digits (s : string) (v : Z) (n : nat) : Z * nat * string :=
  match s with
  | String c s' =>
      if is_digit c then digits s' (10 * v + digit_val c)%Z (S n)
      else (v, n, s)
  | EmptyString => (v, n, s)
  end.

Definition is_blank (c : ascii) : bool :=
  (code c =? 32)%nat || between 9 13 c.

Definition sign (s : string) : bool * string :=
  match s with
  | String c s' =>
      if Ascii.eqb c "-" then (true, s')
      else if Ascii.eqb c "+" then (false, s')
      else (false, s)
  | EmptyString => (false, s)
  end.

(** [m * 10^e] *)
Definition scale (m e : Z) : Q :=
  match e with
  | Zneg p => m # Pos.pow 10 p
  | _ => inject_Z (m * 10 ^ e)
  end.

Definition exponent (s : string) : option (Z * string) :=
  match s with
  | String c s' =>
      if Ascii.eqb c "e" || Ascii.eqb c "E" then
        let '(neg, s1) := sign s' in
        let '(v, n, s2) := digits s1 0%Z 0 in
        match n with
        | O => None
        | _ => Some ((if neg then - v else v)%Z, s2)
        end
      else Some (0%Z, s)
  | EmptyString => Some (0%Z, s)
  end.

Definition parse (s : string) : num :=
  let s0 := Str.drop_while is_blank s in
  let '(neg, s1) := sign s0 in
  let '(ip, ni, s2) := digits s1 0%Z 0 in
  let '(m, nf, s3) :=
    match s2 with
    | String c s2' => if Ascii.eqb c "." then digits s2' ip 0 else (ip, O, s2)
    | EmptyString => (ip, O, s2)
    end in
  match (ni + nf)%nat with
  | O => None
  | _ =>
      match exponent s3 with
      | Some (e, s4) =>
          match Str.drop_while is_blank s4 with
          | EmptyString =>
              Some (Q2Qc (scale (if neg then - m else m) (e - Z.of_nat nf)))
          | _ => None
          end
      | None => None
      end
  end.

(** the characters a decimal literal is written with *)
Definition numeric_char (c : ascii) : bool :=
  is_digit c || is_blank c
  || Ascii.eqb c "-" || Ascii.eqb c "+" || Ascii.eqb c "."
  || Ascii.eqb c "e" || Ascii.eqb c "E".

(** a cell: a text is parsed, a missing value stays one *)
Definition to_number (cell : option string) : num :=
  match cell with
  | Some s => parse s
  | None => None
  end.

End ToNumeric.
Import ToNumeric.

(** ** The platform: what pandas, numpy and Python contribute

    The program hands its arithmetic to numpy and to Python, and the
    reading of its columns to pandas.  The engine below is written
    over these operations as it finds them; their laws are the two
    that the embedding itself relies on. *)

Class Platform : Type := mkPlatform {
  (** a number: a cell of a numeric column, a numpy scalar, a Python
      [int] or [float] *)
  num : Type;
  (** [pd.to_numeric(column, errors='coerce')]: a column of text cells
      read as a numeric column, all cells in one dtype *)
  to_numeric : list (option string) -> list num;
  to_numeric_length :
    forall column, List.length (to_numeric column) = List.length column;
  (** [pd.isna] *)
  isna : num -> bool;
  (** the zero that [Series.sum()] writes over a missing value before
      it adds the column up ([skipna=True], the default) *)
  fill_value : num;
  (** [ndarray.sum()], the sum of a column without missing values *)
  np_sum : list num -> num;
  (** [x * y], [x - y], [x / y] and [x + y] *)
  multiply : num -> num -> num;
  subtract : num -> num -> num;
  divide : num -> num -> num;
  add : num -> num -> num;
  (** [x != 0] and [x > 0] *)
  ne_zero : num -> bool;
  gt_zero : num -> bool;
  (** a Python [int] literal *)
  of_int : Z -> num;
  (** the Python object that [iterrows] hands out for a cell *)
  scalar : num -> num;
  (** whether the [.str] accessor takes a text column: it does when the
      column holds a text; a column of missing values alone is refused
      where it is a float64 column *)
  str_accessor : list (option string) -> bool;
  str_accessor_text :
    forall column s, In (Some s) column -> str_accessor column = true;
  (** the default of [regex] in [Series.str.replace]: [True] before
      pandas 2.0, [False] from there on *)
  regex_default : bool
}.

(** ** The transaction table *)

(** A row of the table; [N] is the type of the cells of the three
    numeric columns: text before the cleaning step, numbers after it. *)
Record row (N : Type) : Type := mkRow {
  Instrument : option string;
  Trans_Code : option string;
  Quantity : N;
  Price : N;
  Amount : N;
  Description : option string
}.

Arguments mkRow {N}.
Arguments Instrument {N}.
Arguments Trans_Code {N}.
Arguments Quantity {N}.
Arguments Price {N}.
Arguments Amount {N}.
Arguments Description {N}.

Definition raw_row : Type := row (option string).

(** ** Cleaning the numeric columns (lines 34 to 38) *)

(** [Series.replace('[\\$,]', '', regex=True)] on one cell *)
Definition strip_currency (cell : option string) : option string :=
  option_map (Re.sub (Cls is_dollar_or_comma) []) cell.

(** [r'\(([^)]+)\)'] *)
Definition paren_re : regex :=
  Seq (Cls (is_char "(")) (Seq (Grp (Plus not_rparen)) (Cls (is_char ")"))).

(** [Series.str.replace(r'\(([^)]+)\)', r'-\1')] on one cell.  The call
    names no [regex]: where the default is [True] the pattern is a
    regular expression and the replacement a template; where it is
    [False] both are plain text, and the cell is searched for the
    eleven characters of the pattern. *)
Definition negate_parens (regex : bool) (cell : option string) : option string :=
  if regex
  then option_map (Re.sub paren_re [Lit "-"; Ref 1]) cell
  else option_map (Str.replace "\(([^)]+)\)" "-\1") cell.

(** the text of the three columns when [to_numeric] reads them *)
Definition price_text (data : list raw_row) : list (option string) :=
  map strip_currency (map Price data).

Definition quantity_text (data : list raw_row) : list (option string) :=
  map Quantity data.

(** the amounts after line 36 *)
Definition amount_stripped (data : list raw_row) : list (option string) :=
  map strip_currency (map Amount data).

(** ** The performance mapping: a [dict] in insertion order *)

Record perf {P : Platform} : Type := mkPerf {
  Total_Quantity : num;
  Total_Profit_Loss : num;
  Return_pct : num
}.

Module Dict.
Section Dict.
Context {P : Platform}.

Definition dict : Type := list (string * perf).

(** [d[k] = v] *)
Fixpoint set (d : dict) (k : string) (v : perf) : dict :=
  match d with
  | [] => [(k, v)]
  | (k', v') :: d' =>
      if String.eqb k' k then (k', v) :: d' else (k', v') :: set d' k v
  end.

Fixpoint get (d : dict) (k : string) : option perf :=
  match d with
  | [] => None
  | (k', v') :: d' => if String.eqb k' k then Some v' else get d' k
  end.

Definition keys (d : dict) : list string := map fst d.

Definition mem (d : dict) (k : string) : bool :=
  existsb (String.eqb k) (keys d).

(** the number of entries stored under [k] *)
Definition entries (d : dict) (k : string) : nat :=
  List.length (List.filter (fun kv => String.eqb (fst kv) k) d).

End Dict.
End Dict.
Import Dict.

(** ** [analyze_performance] *)

(** [Series.dropna()] *)
Fixpoint dropna (l : list (option string)) : list string :=
  match l with
  | [] => []
  | Some x :: l' => x :: dropna l'
  | None :: l' => dropna l'
  end.

(** [Series.unique()]: the distinct values in order of first appearance *)
Fixpoint unique_from (seen : list string) (l : list string) : list string :=
  match l with
  | [] => []
  | x :: l' =>
      if existsb (String.eqb x) seen then unique_from seen l'
      else x :: unique_from (x :: seen) l'
  end.

Definition unique (l : list string) : list string := unique_from [] l.

Definition is_empty {X : Type} (l : list X) : bool :=
  match l with [] => true | _ => false end.

(** [f"{ticker} {expiration} {option_type} {strike}"] *)
Definition option_key (ticker expiration option_type strike : string) : string :=
  ticker ++ " " ++ expiration ++ " " ++ option_type ++ " " ++ strike.

(** [Series.str.contains(pat, na=False)]; the patterns used hold no
    special character, a match is the presence of [pat] as substring *)
Definition str_contains (pat : string) (cell : option string) : bool :=
  match cell with
  | Some s => Str.contains pat s
  | None => false
  end.

(** a loop whose body may raise *)
Fixpoint for_each {S X : Type} (body : S -> X -> option S) (l : list X) (st : S)
  : option S :=
  match l with
  | [] => Some st
  | x :: l' =>
      match body st x with
      | Some st' => for_each body l' st'
      | None => None
      end
  end.

Section Engine.
Context {P : Platform}.

Definition num_row : Type := row num.

(** the amounts after line 37 *)
Definition amount_text (data : list raw_row) : list (option string) :=
  map (negate_parens regex_default) (amount_stripped data).

(** a row with numbers in place of the text of its three numeric cells *)
Definition numbered (r : raw_row) (quantity price amount : num) : num_row :=
  {| Instrument := Instrument r;
     Trans_Code := Trans_Code r;
     Quantity := quantity;
     Price := price;
     Amount := amount;
     Description := Description r |}.

(** the rows with the three columns of numbers in place of the text *)
Fixpoint set_numbers (data : list raw_row) (quantity price amount : list num)
  : list num_row :=
  match data, quantity, price, amount with
  | r :: data', q :: quantity', p :: price', a :: amount' =>
      numbered r q p a :: set_numbers data' quantity' price' amount'
  | _, _, _, _ => []
  end.

(** the table after line 38 *)
Definition clean (data : list raw_row) : list num_row :=
  set_numbers data
    (to_numeric (quantity_text data))
    (to_numeric (price_text data))
    (to_numeric (amount_text data)).

(** [data[data['Trans Code'].str.contains(code, na=False)]] *)
Definition with_code (code : string) (data : list num_row) : list num_row :=
  List.filter (fun r => str_contains code (Trans_Code r)) data.

(** [column == ticker]; a missing cell equals nothing *)
Definition instrument_is (ticker : string) (r : num_row) : bool :=
  match Instrument r with
  | Some i => String.eqb i ticker
  | None => false
  end.

(** [Quantity * Price] of a row, in a product of two columns *)
Definition value (r : num_row) : num := multiply (Quantity r) (Price r).

(** a missing value gives way to zero *)
Definition fillna (x : num) : num := if isna x then fill_value else x.

(** [Series.sum()]: the missing values are passed over, zero standing
    in for each, and the column is added up *)
Definition Series_sum (l : list num) : num := np_sum (map fillna l).

(** [(profit_loss / total_bought) * 100 if total_bought != 0 else 0] *)
Definition return_pct (profit_loss total_bought : num) : num :=
  if ne_zero total_bought
  then multiply (divide profit_loss total_bought) (of_int 100)
  else of_int 0.

(** the record written for a ticker with purchases [buys] and sales [sells] *)
Definition stock_perf (buys sells : list num_row) : perf :=
  let total_bought := Series_sum (map value buys) in
  let total_sold := Series_sum (map value sells) in
  let profit_loss := subtract total_sold total_bought in
  let total_quantity := Series_sum (map Quantity buys) in
  {| Total_Quantity := total_quantity;
     Total_Profit_Loss := profit_loss;
     Return_pct := return_pct profit_loss total_bought |}.

Definition state : Type := (dict * list string)%type.

(** one turn of the loop over the tickers (lines 51 to 69) *)
Definition stock_step (stock_buy stock_sell : list num_row)
           (st : state) (ticker : string) : state :=
  let '(performance, unresolved) := st in
  let buys := List.filter (instrument_is ticker) stock_buy in
  let sells := List.filter (instrument_is ticker) stock_sell in
  if negb (is_empty buys) && negb (is_empty sells)
  then (Dict.set performance ticker (stock_perf buys sells), unresolved)
  else (performance, (unresolved ++ [ticker])%list).

(** the rows selected at lines 76 to 79; a missing description gives a
    missing value in the first mask, which [&] takes as [False].  (The
    description column holds the text that was parsed, so the [.str]
    accessor takes it.) *)
Definition matching_sell (option_sell : list num_row)
           (ticker expiration : string) : list num_row :=
  List.filter
    (fun r => str_contains expiration (Description r) && instrument_is ticker r)
    option_sell.

(** the record written for an opening row and the sales matched to it;
    the quantity and the price of the row are the objects [iterrows]
    hands out *)
Definition option_perf (r : num_row) (matching : list num_row) : perf :=
  let total_bought := multiply (scalar (Quantity r)) (scalar (Price r)) in
  let total_sold := Series_sum (map value matching) in
  let profit_loss := subtract total_sold total_bought in
  let total_quantity := scalar (Quantity r) in
  {| Total_Quantity := total_quantity;
     Total_Profit_Loss := profit_loss;
     Return_pct := return_pct profit_loss total_bought |}.

(** one turn of the loop over the BTO rows (lines 72 to 94);
    [re.search] raises [TypeError] on a missing description *)
Definition option_step (option_sell : list num_row)
           (st : state) (r : num_row) : option state :=
  let '(performance, unresolved) := st in
  match Description r with
  | None => None
  | Some description =>
      match extract_option_details description with
      | Some (ticker, expiration, option_type, strike) =>
          if Str.nonempty ticker then
            let matching := matching_sell option_sell ticker expiration in
            let key := option_key ticker expiration option_type strike in
            if negb (is_empty matching)
            then Some (Dict.set performance key (option_perf r matching), unresolved)
            else Some (performance, (unresolved ++ [key])%list)
          else Some st
      | None => Some st
      end
  end.

(** Line 37 raises [AttributeError] when the [.str] accessor refuses
    the amounts, line 41 when it refuses the transaction codes. *)
Definition analyze_performance (data : list raw_row) : option (dict * list string) :=
  if negb (str_accessor (amount_stripped data)) then None
  else if negb (str_accessor (map Trans_Code data)) then None
  else
    let data := clean data in
    let stock_buy_transactions := with_code "Buy" data in
    let stock_sell_transactions := with_code "Sell" data in
    let option_buy_transactions := with_code "BTO" data in
    let option_sell_transactions := with_code "STO" data in
    let ach_transactions := with_code "ACH" data in
    let tickers := unique (dropna (map Instrument stock_buy_transactions)) in
    let st :=
      fold_left (stock_step stock_buy_transactions stock_sell_transactions)
                tickers ([], []) in
    for_each (option_step option_sell_transactions) option_buy_transactions st.

End Engine.

(** ** The platform of the worked examples: exact arithmetic

    Every cell is read on its own, [int] and [float] are one type of
    exact rationals, a column of missing values alone is refused by
    the [.str] accessor (an empty column is taken), and the pattern of
    [Series.str.replace] is plain text. *)

Definition is_text (cell : option string) : bool :=
  match cell with
  | Some _ => true
  | None => false
  end.

#[global] Instance Exact : Platform | 100 := {|
  num := Num.num;
  to_numeric := map to_number;
  to_numeric_length := length_map to_number;
  isna := Num.is_nan;
  fill_value := of_Z 0;
  np_sum := Num.sum;
  multiply := Num.mul;
  subtract := Num.sub;
  divide := Num.div;
  add := Num.add;
  ne_zero := Num.nonzero;
  gt_zero := Num.is_positive;
  of_int := of_Z;
  scalar := fun x => x;
  str_accessor := fun column => existsb is_text column || is_empty column;
  str_accessor_text := fun column s H =>
    orb_true_intro _ _
      (or_introl (proj2 (existsb_exists is_text column)
                        (ex_intro _ (Some s) (conj H eq_refl))));
  regex_default := false
|}.

(** the cells of a row on [Exact] *)
Definition clean_price (cell : option string) : Num.num :=
  to_number (strip_currency cell).

Definition clean_quantity (cell : option string) : Num.num :=
  to_number cell.

Definition clean_amount (regex : bool) (cell : option string) : Num.num :=
  to_number (negate_parens regex (strip_currency cell)).

Definition clean_row (r : raw_row) : @num_row Exact :=
  {| Instrument := Instrument r;
     Trans_Code := Trans_Code r;
     Quantity := clean_quantity (Quantity r);
     Price := clean_price (Price r);
     Amount := clean_amount false (Amount r);
     Description := Description r |}.

(** ** Rows for the examples *)

Definition trade (instrument code quantity price description : string) : raw_row :=
  {| Instrument := Some instrument;
     Trans_Code := Some code;
     Quantity := Some quantity;
     Price := Some price;
     Amount := Some "$0.00";
     Description := Some description |}.

Definition perf_eqb (a b : @perf Exact) : bool :=
  Num.eqb (Total_Quantity a) (Total_Quantity b)
  && Num.eqb (Total_Profit_Loss a) (Total_Profit_Loss b)
  && Num.eqb (Return_pct a) (Return_pct b).

Definition xyz_table : list raw_row :=
  [ trade "XYZ" "Buy" "10" "100" "XYZ Corp";
    trade "XYZ" "Sell" "10" "120" "XYZ Corp" ].

Definition pltr_table : list raw_row :=
  [ trade "PLTR" "BTO" "1" "$2.50" "PLTR 01/19/24 C 25";
    trade "PLTR" "STO" "1" "$4.00" "PLTR 01/19/24 C 25" ].

(** a Buy row whose instrument is spelled like the key of an option *)
Definition clash_table : list raw_row :=
  [ trade "A 01/19/24 C 25" "Buy" "10" "100" "shares";
    trade "A 01/19/24 C 25" "Sell" "10" "120" "shares";
    trade "A" "BTO" "1" "$2.50" "A 01/19/24 C 25";
    trade "A" "STO" "1" "$4.00" "A 01/19/24 C 25" ].

Definition held_clash_table : list raw_row :=
  [ trade "A 01/19/24 C 25" "Buy" "10" "100" "shares";
    trade "A" "BTO" "1" "$2.50" "A 01/19/24 C 25";
    trade "A" "STO" "1" "$4.00" "A 01/19/24 C 25" ].

Definition open_clash_table : list raw_row :=
  [ trade "A 01/19/24 C 25" "Buy" "10" "100" "shares";
    trade "A 01/19/24 C 25" "Sell" "10" "120" "shares";
    trade "A" "BTO" "1" "$2.50" "A 01/19/24 C 25" ].

(** the same option opened twice *)
Definition reopen_table : list raw_row :=
  [ trade "PLTR" "BTO" "1" "$2.50" "PLTR 01/19/24 C 25";
    trade "PLTR" "BTO" "3" "$1.00" "PLTR 01/19/24 C 25";
    trade "PLTR" "STO" "1" "$4.00" "PLTR 01/19/24 C 25" ].

(** a call opened, a put of another strike sold *)
Definition cross_table : list raw_row :=
  [ trade "PLTR" "BTO" "1" "$2.50" "PLTR 01/19/24 C 25";
    trade "PLTR" "STO" "1" "$4.00" "PLTR 01/19/24 P 30" ].

(** a purchase whose price is not a number *)
Definition bad_price_table : list raw_row :=
  [ trade "XYZ" "Buy" "10" "100" "XYZ Corp";
    trade "XYZ" "Buy" "5" "abc" "XYZ Corp";
    trade "XYZ" "Sell" "10" "120" "XYZ Corp" ].

(** a stock still held next to an option opened and closed *)
Definition mixed_table : list raw_row :=
  [ trade "XYZ" "Buy" "10" "100" "XYZ Corp";
    trade "PLTR" "BTO" "1" "$2.50" "PLTR 01/19/24 C 25";
    trade "PLTR" "STO" "1" "$4.00" "PLTR 01/19/24 C 25" ].

(** a purchase without an amount *)
Definition no_amount_table : list raw_row :=
  [ {| Instrument := Some "XYZ";
       Trans_Code := Some "Buy";
       Quantity := Some "10";
       Price := Some "100";
       Amount := None;
       Description := Some "XYZ Corp" |} ].

Definition ach_row : raw_row :=
  {| Instrument := None;
     Trans_Code := Some "ACH";
     Quantity := None;
     Price := None;
     Amount := Some "$1,000.00";
     Description := Some "ACH Deposit" |}.

Definition record (quantity profit_loss return_pct : Q) : @perf Exact :=
  {| Total_Quantity := of_Q quantity;
     Total_Profit_Loss := of_Q profit_loss;
     Return_pct := of_Q return_pct |}.

(** ** Vocabulary of the statements *)

(** the pattern of [extract_option_details] after its first token, after
    its first two tokens, and so on *)
Definition rest_of (r : regex) : regex :=
  match r with
  | Seq _ r' => r'
  | _ => r
  end.

Definition after_ticker : regex := rest_of option_re.
Definition from_date : regex := rest_of after_ticker.
Definition after_date : regex := rest_of from_date.
Definition from_flag : regex := rest_of after_date.
Definition after_flag : regex := rest_of from_flag.
Definition from_strike : regex := rest_of after_flag.

(** no match of [r] starts at the beginning of [s], whatever follows [r] *)
Definition fails (r : regex) (s : string) : Prop :=
  forall (A : Type) (k : @cont A), rmatch r s k = None.

(** the five kinds of token of a description ["TICKER MM/DD/YY C NNN"] *)
Definition is_ticker (t : string) : bool := Str.nonempty t && Str.all is_word t.

Definition is_sep (w : string) : bool := Str.nonempty w && Str.all is_space w.

Definition is_date (d : string) : bool :=
  match d with
  | String a (String b (String s1 (String c (String e (String s2
      (String f (String g EmptyString))))))) =>
      is_digit a && is_digit b && is_char "/" s1
      && is_digit c && is_digit e && is_char "/" s2
      && is_digit f && is_digit g
  | _ => false
  end.

Definition is_flag (f : string) : bool :=
  match f with
  | String c EmptyString => is_PC c
  | _ => false
  end.

(** [[pc]] *)
Definition is_pc (c : ascii) : bool :=
  Ascii.eqb c "p" || Ascii.eqb c "c".

Definition is_lower_flag (f : string) : bool :=
  match f with
  | String c EmptyString => is_pc c
  | _ => false
  end.

Definition is_strike (n : string) : bool := Str.nonempty n && Str.all is_digit n.

(** a text at which a strike ends for Python too: nothing, or a text
    that begins with an ASCII character other than a digit *)
Definition ends_strike (rest : string) : bool :=
  match rest with
  | EmptyString => true
  | String c _ => is_ascii c && negb (is_digit c)
  end.

Section Vocabulary.
Context {P : Platform}.

(** the five subsets and the tickers of [analyze_performance], as
    functions of the table it is given *)
Definition stock_buy (data : list raw_row) : list num_row := with_code "Buy" (clean data).
Definition stock_sell (data : list raw_row) : list num_row := with_code "Sell" (clean data).
Definition option_buy (data : list raw_row) : list num_row := with_code "BTO" (clean data).
Definition option_sell (data : list raw_row) : list num_row := with_code "STO" (clean data).

Definition tickers (data : list raw_row) : list string :=
  unique (dropna (map Instrument (stock_buy data))).

Definition buys_of (data : list raw_row) (ticker : string) : list num_row :=
  List.filter (instrument_is ticker) (stock_buy data).

Definition sells_of (data : list raw_row) (ticker : string) : list num_row :=
  List.filter (instrument_is ticker) (stock_sell data).

(** the mapping and the list when the loop over the tickers is over *)
Definition after_stocks (data : list raw_row) : state :=
  fold_left (stock_step (stock_buy data) (stock_sell data)) (tickers data) ([], []).

(** the write of lines 63 to 67 *)
Definition stock_write (stock_buy stock_sell : list num_row)
           (performance : dict) (ticker : string) : dict :=
  Dict.set performance ticker
    (stock_perf (List.filter (instrument_is ticker) stock_buy)
                (List.filter (instrument_is ticker) stock_sell)).

(** the test of line 57 *)
Definition resolved (stock_buy stock_sell : list num_row) (ticker : string) : bool :=
  negb (is_empty (List.filter (instrument_is ticker) stock_buy))
  && negb (is_empty (List.filter (instrument_is ticker) stock_sell)).

(** what one turn of the loop over the BTO rows does *)
Inductive outcome : Type :=
| Raises
| Skips
| Writes (key : string) (v : perf)
| Leaves (key : string).

Definition option_outcome (option_sell : list num_row) (r : num_row) : outcome :=
  match Description r with
  | None => Raises
  | Some description =>
      match extract_option_details description with
      | Some (ticker, expiration, option_type, strike) =>
          if Str.nonempty ticker then
            let matching := matching_sell option_sell ticker expiration in
            let key := option_key ticker expiration option_type strike in
            if negb (is_empty matching)
            then Writes key (option_perf r matching)
            else Leaves key
          else Skips
      | None => Skips
      end
  end.

(** the composite key of a BTO row whose description parses *)
Definition key_of (r : num_row) : option string :=
  match Description r with
  | Some description =>
      match extract_option_details description with
      | Some (ticker, expiration, option_type, strike) =>
          Some (option_key ticker expiration option_type strike)
      | None => None
      end
  | None => None
  end.

(** the record of lines 63 to 67, from the rows bought and the rows
    sold: the sums are those of pandas, the other operations those of
    numpy *)
Definition stock_record (buys sells : list num_row) : perf :=
  let cost := Series_sum (map value buys) in
  let proceeds := Series_sum (map value sells) in
  let profit_loss := subtract proceeds cost in
  {| Total_Quantity := Series_sum (map Quantity buys);
     Total_Profit_Loss := profit_loss;
     Return_pct :=
       if ne_zero cost
       then multiply (divide profit_loss cost) (of_int 100)
       else of_int 0 |}.

(** the record of lines 88 to 92, from the opening row and the sales
    matched to it *)
Definition option_record (r : num_row) (matching : list num_row) : perf :=
  let cost := multiply (scalar (Quantity r)) (scalar (Price r)) in
  let proceeds := Series_sum (map value matching) in
  let profit_loss := subtract proceeds cost in
  {| Total_Quantity := scalar (Quantity r);
     Total_Profit_Loss := profit_loss;
     Return_pct :=
       if ne_zero cost
       then multiply (divide profit_loss cost) (of_int 100)
       else of_int 0 |}.

(** the two loops (lines 47 to 96) on the table after cleaning *)
Definition loops (data : list num_row) : option (dict * list string) :=
  let stock_buy_transactions := with_code "Buy" data in
  let stock_sell_transactions := with_code "Sell" data in
  let option_buy_transactions := with_code "BTO" data in
  let option_sell_transactions := with_code "STO" data in
  let tickers := unique (dropna (map Instrument stock_buy_transactions)) in
  let st :=
    fold_left (stock_step stock_buy_transactions stock_sell_transactions)
              tickers ([], []) in
  for_each (option_step option_sell_transactions) option_buy_transactions st.

(** two cleaned rows in which the loops read the same: the same text,
    the same quantity and the same product where a sum takes them, and
    for a BTO row the same quantity and price as they are *)
Definition same_reading (r r' : num_row) : Prop :=
  Instrument r = Instrument r'
  /\ Trans_Code r = Trans_Code r'
  /\ Description r = Description r'
  /\ fillna (Quantity r) = fillna (Quantity r')
  /\ fillna (value r) = fillna (value r')
  /\ (str_contains "BTO" (Trans_Code r) = true ->
      Quantity r = Quantity r' /\ Price r = Price r').

(** arithmetic on a missing value: a product with a missing factor is
    missing, and so are a difference from which a missing value is
    taken and the quotient of two missing values; a missing value
    differs from zero; the object handed out for a missing cell is
    missing *)
Definition missing_propagates : Prop :=
  (forall x y, isna x = true \/ isna y = true -> isna (multiply x y) = true)
  /\ (forall x y, isna y = true -> isna (subtract x y) = true)
  /\ (forall x y, isna x = true -> isna y = true -> isna (divide x y) = true)
  /\ (forall x, isna x = true -> ne_zero x = true)
  /\ (forall x, isna (scalar x) = isna x).

(** Python's [+] and [>] on a missing value *)
Definition missing_total : Prop :=
  (forall x y, isna x = true \/ isna y = true -> isna (add x y) = true)
  /\ (forall x, isna x = true -> gt_zero x = false).

(** the two tests of the [.str] accessor, at lines 37 and 41 *)
Definition accepted (data : list raw_row) : bool :=
  str_accessor (amount_stripped data) && str_accessor (map Trans_Code data).

(** the numbers read in the quantities and in the prices of a table *)
Definition quantities (data : list raw_row) : list num :=
  to_numeric (quantity_text data).

Definition prices (data : list raw_row) : list num :=
  to_numeric (price_text data).

End Vocabulary.

(** two rows with the same text outside the three numeric cells *)
Definition same_text (r r' : raw_row) : Prop :=
  Instrument r = Instrument r' /\ Trans_Code r = Trans_Code r'
  /\ Description r = Description r'.

(** a list without the element at position [n] *)
Definition without {X : Type} (n : nat) (l : list X) : list X :=
  (firstn n l ++ skipn (S n) l)%list.

(** a row that belongs to none of the four subsets the loops read *)
Definition unclassified (r : raw_row) : bool :=
  negb (str_contains "Buy" (Trans_Code r))
  && negb (str_contains "Sell" (Trans_Code r))
  && negb (str_contains "BTO" (Trans_Code r))
  && negb (str_contains "STO" (Trans_Code r)).

Definition result_eqb (a b : option (@dict Exact * list string)) : bool :=
  match a, b with
  | Some (p, u), Some (q, w) =>
      (List.length p =? List.length q)%nat
      && forallb (fun '((k, v), (k', v')) => String.eqb k k' && perf_eqb v v')
                 (List.combine p q)
      && (List.length u =? List.length w)%nat
      && forallb (fun '(x, y) => String.eqb x y) (List.combine u w)
  | None, None => true
  | _, _ => false
  end.

(** ** [allowed_file] *)

Definition ALLOWED_EXTENSIONS : list string := ["csv"].

(** [str.lower()] on the ASCII range *)
Definition lower_char (c : ascii) : ascii :=
  if between 65 90 c then ascii_of_nat (code c + 32) else c.

Fixpoint lower (s : string) : string :=
  match s with
  | EmptyString => EmptyString
  | String c s' => String (lower_char c) (lower s')
  end.

(** [s.rsplit(sep, 1)] for a separator of one character: the text
    whole when it holds no separator, else the text before the last
    separator and the text after it *)
Fixpoint rsplit1 (sep : ascii) (s : string) : list string :=
  match s with
  | EmptyString => [EmptyString]
  | String c s' =>
      match rsplit1 sep s' with
      | [a; b] => [String c a; b]
      | _ => if Ascii.eqb c sep then [EmptyString; s'] else [s]
      end
  end.

(** ['.' in filename and
     filename.rsplit('.', 1)[1].lower() in ALLOWED_EXTENSIONS] *)
Definition allowed_file (filename : string) : bool :=
  if Str.contains "." filename
  then existsb (String.eqb (lower (nth 1 (rsplit1 "." filename) EmptyString)))
               ALLOWED_EXTENSIONS
  else false.

(** ** [generate_summary]

    [str_of] stands for [str(x)] and [fixed2] for [format(x, '.2f')] on
    the numbers of a record; the text they give is Python's business. *)

Section Summary.
Context {P : Platform}.
Variable str_of : num -> string.
Variable fixed2 : num -> string.

(** the item of one position (line 104) *)
Definition summary_item (ticker : string) (data : perf) : string :=
  "<li><strong>" ++ ticker ++ "</strong>: " ++ str_of (Total_Quantity data)
  ++ " shares/contracts, Profit/Loss: $" ++ fixed2 (Total_Profit_Loss data)
  ++ ", Return: " ++ fixed2 (Return_pct data) ++ "%</li>".

(** one turn of the loop of lines 102 to 104 *)
Definition summary_step (st : string * num) (item : string * perf) : string * num :=
  let '(summary, total_profit) := st in
  let '(ticker, data) := item in
  let total_profit := add total_profit (Total_Profit_Loss data) in
  (summary ++ summary_item ticker data, total_profit).

Definition generate_summary (performance : dict) (unresolved : list string) : string :=
  let summary := "<h2>Portfolio Performance Summary</h2><ul>" in
  let total_profit := of_int 0 in
  let '(summary, total_profit) :=
    fold_left summary_step performance (summary, total_profit) in
  let summary :=
    summary ++ "<li><strong>Total Portfolio Profit/Loss</strong>: $"
    ++ fixed2 total_profit ++ "</li></ul>" in
  let summary :=
    if negb (is_empty unresolved)
    then
      fold_left (fun summary unresolved_trade =>
                   summary ++ "<li>" ++ unresolved_trade ++ "</li>")
                unresolved (summary ++ "<h3>Unresolved Trades</h3><ul>")
      ++ "</ul>"
    else summary in
  let write_up :=
    "<h3>Overall Insights</h3><p>The total portfolio performance shows a net "
    ++ (if gt_zero total_profit then "profit" else "loss")
    ++ " of $" ++ fixed2 total_profit ++ ". " in
  let write_up :=
    if gt_zero total_profit
    then write_up ++ "The strategy appears to be profitable with significant gains from well-timed buys and sells."
    else write_up ++ "The portfolio has experienced losses, which may be attributed to some underperforming trades or option expirations." in
  summary ++ write_up.
End Summary.

Section Outputs.
Context {P : Platform}.

(** the total the loop of [generate_summary] arrives at: Python's [+]
    from the left, starting at the [int] 0 *)
Definition total_profit (performance : dict) : num :=
  fold_left (fun acc item => add acc (Total_Profit_Loss (snd item)))
            performance (of_int 0).

(** ** More vocabulary: the outputs of [analyze_performance] *)

(** the tickers bought and not sold, in order of first appearance *)
Definition unsold_tickers (data : list raw_row) : list string :=
  List.filter (fun ticker => is_empty (sells_of data ticker)) (tickers data).

(** the keys of the BTO rows that parse and match no STO row, row by row *)
Definition unmatched_keys (option_sell rows : list num_row) : list string :=
  flat_map (fun r => match option_outcome option_sell r with
                     | Leaves key => [key]
                     | _ => []
                     end) rows.

(** lines 41 to 96: [analyze_performance] after the cleaning step *)
Definition reconcile (data : list num_row) : option (dict * list string) :=
  if negb (str_accessor (map Trans_Code data)) then None
  else loops data.

End Outputs.

(** a row with another amount, with another instrument *)
Definition with_amount (amount : option string) (r : raw_row) : raw_row :=
  {| Instrument := Instrument r;
     Trans_Code := Trans_Code r;
     Quantity := Quantity r;
     Price := Price r;
     Amount := amount;
     Description := Description r |}.

Definition with_instrument (instrument : option string) (r : raw_row) : raw_row :=
  {| Instrument := instrument;
     Trans_Code := Trans_Code r;
     Quantity := Quantity r;
     Price := Price r;
     Amount := Amount r;
     Description := Description r |}.

(** a row of no subset but, possibly, the BTO rows *)
Definition opening_only (r : raw_row) : bool :=
  negb (str_contains "Buy" (Trans_Code r))
  && negb (str_contains "Sell" (Trans_Code r))
  && negb (str_contains "STO" (Trans_Code r)).

(** * Properties *)

(** ** Strings *)

Module StrFacts.

Lemma app_assoc (a b c : string) : (a ++ b) ++ c = a ++ b ++ c.
Proof. induction a as [|x a IH]; simpl; [reflexivity | now rewrite IH]. Qed.

Lemma app_nil_r (a : string) : a ++ EmptyString = a.
Proof. induction a as [|x a IH]; simpl; [reflexivity | now rewrite IH]. Qed.

Lemma length_app (a b : string) :
  String.length (a ++ b) = (String.length a + String.length b)%nat.
Proof. induction a as [|x a IH]; simpl; [reflexivity | now rewrite IH]. Qed.

Lemma all_app p (a b : string) :
  Str.all p (a ++ b) = Str.all p a && Str.all p b.
Proof.
  induction a as [|x a IH]; simpl; [reflexivity|].
  rewrite IH. now rewrite andb_assoc.
Qed.

Lemma all_impl (p q : ascii -> bool) (a : string) :
  (forall c, p c = true -> q c = true) -> Str.all p a = true -> Str.all q a = true.
Proof.
  intros Hpq. induction a as [|x a IH]; simpl; [reflexivity|].
  intros H. apply andb_true_iff in H as [H1 H2].
  rewrite (Hpq _ H1), (IH H2). reflexivity.
Qed.

Lemma stops_app p (a b : string) :
  Str.nonempty a = true -> Str.stops p (a ++ b) = Str.stops p a.
Proof. destruct a; simpl; [discriminate | reflexivity]. Qed.

(** a non-empty run of one class stops every class disjoint from it *)
Lemma stops_run (p q : ascii -> bool) (a : string) :
  (forall c, p c = true -> q c = false) ->
  Str.nonempty a = true -> Str.all p a = true -> Str.stops q a = true.
Proof.
  intros Hpq. destruct a as [|x a]; simpl; [discriminate|].
  intros _ H. apply andb_true_iff in H as [H _].
  now rewrite (Hpq _ H).
Qed.

Lemma prefix_app (a b : string) : String.prefix a (a ++ b) = true.
Proof.
  induction a as [|x a IH]; simpl.
  - destruct b; reflexivity.
  - destruct (ascii_dec x x); [exact IH | congruence].
Qed.

Lemma contains_prefix (sub s : string) :
  String.prefix sub s = true -> Str.contains sub s = true.
Proof. intros H. destruct s; simpl in *; now rewrite H. Qed.

Lemma contains_tail (sub s : string) c :
  Str.contains sub s = true -> Str.contains sub (String c s) = true.
Proof.
  intros H. change (Str.contains sub (String c s))
    with (if String.prefix sub (String c s) then true else Str.contains sub s).
  rewrite H. now destruct (String.prefix sub (String c s)).
Qed.

Lemma contains_app (sub a b : string) : Str.contains sub (a ++ sub ++ b) = true.
Proof.
  induction a as [|x a IH].
  - change (EmptyString ++ sub ++ b) with (sub ++ b).
    apply contains_prefix, prefix_app.
  - change (String x a ++ sub ++ b) with (String x (a ++ sub ++ b)).
    apply contains_tail, IH.
Qed.

Lemma filter_all p (s : string) : Str.all p (Str.filter p s) = true.
Proof.
  induction s as [|x s IH]; simpl; [reflexivity|].
  destruct (p x) eqn:E; simpl; [now rewrite E | exact IH].
Qed.

Lemma filter_id p (s : string) : Str.all p s = true -> Str.filter p s = s.
Proof.
  induction s as [|x s IH]; simpl; [reflexivity|].
  intros H. apply andb_true_iff in H as [H1 H2].
  now rewrite H1, (IH H2).
Qed.

End StrFacts.

(** ** Character classes *)

Module ClassFacts.

Ltac by_cases c :=
  destruct c as [[] [] [] [] [] [] [] []]; vm_compute; try reflexivity; try discriminate.

Lemma space_not_word c : is_space c = true -> is_word c = false.
Proof. by_cases c. Qed.

Lemma space_not_digit c : is_space c = true -> is_digit c = false.
Proof. by_cases c. Qed.

Lemma space_not_PC c : is_space c = true -> is_PC c = false.
Proof. by_cases c. Qed.

Lemma word_not_space c : is_word c = true -> is_space c = false.
Proof. by_cases c. Qed.

Lemma digit_word c : is_digit c = true -> is_word c = true.
Proof. by_cases c. Qed.

Lemma digit_not_space c : is_digit c = true -> is_space c = false.
Proof. by_cases c. Qed.

Lemma digit_not_PC c : is_digit c = true -> is_PC c = false.
Proof. by_cases c. Qed.

Lemma digit_not_slash c : is_digit c = true -> is_char "/" c = false.
Proof. by_cases c. Qed.

Lemma PC_word c : is_PC c = true -> is_word c = true.
Proof. by_cases c. Qed.

Lemma PC_not_space c : is_PC c = true -> is_space c = false.
Proof. by_cases c. Qed.

Lemma PC_not_digit c : is_PC c = true -> is_digit c = false.
Proof. by_cases c. Qed.

Lemma word_not_slash c : is_word c = true -> is_char "/" c = false.
Proof. by_cases c. Qed.

Lemma is_char_eq x c : is_char x c = true -> c = x.
Proof. unfold is_char. intros H. now apply Ascii.eqb_eq. Qed.

Lemma PC_cases c : is_PC c = true -> c = "P"%char \/ c = "C"%char.
Proof.
  unfold is_PC. intros H. apply orb_true_iff in H as [H | H];
    apply Ascii.eqb_eq in H; auto.
Qed.

End ClassFacts.

(** ** The matcher *)

Module ReFacts.
Import StrFacts ClassFacts.

Section Generic.
Context {A : Type}.

Lemma greedy_run p u r acc (k : string -> string -> option A) :
  Str.all p u = true -> Str.stops p r = true ->
  (forall m c r', p c = true -> k m (String c r') = None) ->
  greedy p (u ++ r) acc k = k (acc ++ u) r.
Proof.
  intros Hu Hr Hk. revert acc.
  induction u as [|x u IH]; intros acc.
  - rewrite app_nil_r. destruct r as [|c r']; simpl; [reflexivity|].
    simpl in Hr. apply negb_true_iff in Hr. now rewrite Hr.
  - simpl in Hu. apply andb_true_iff in Hu as [Hx Hu].
    simpl. rewrite Hx, (IH Hu), app_assoc. simpl.
    destruct (k (acc ++ String x u) r) eqn:E; [reflexivity|].
    now apply Hk.
Qed.

Lemma greedy_first p u r acc (k : string -> string -> option A) x :
  Str.all p u = true -> Str.stops p r = true ->
  k (acc ++ u) r = Some x ->
  greedy p (u ++ r) acc k = Some x.
Proof.
  intros Hu Hr. revert acc.
  induction u as [|y u IH]; intros acc Hk.
  - rewrite app_nil_r in Hk. destruct r as [|c r']; simpl; [exact Hk|].
    simpl in Hr. apply negb_true_iff in Hr. now rewrite Hr.
  - simpl in Hu. apply andb_true_iff in Hu as [Hy Hu].
    simpl. rewrite Hy, (IH Hu); [reflexivity|].
    now rewrite app_assoc.
Qed.

Lemma greedy_sound p s acc (k : string -> string -> option A) x :
  greedy p s acc k = Some x ->
  exists u r, s = u ++ r /\ Str.all p u = true /\ k (acc ++ u) r = Some x.
Proof.
  revert acc. induction s as [|c s IH]; intros acc; simpl.
  - intros H. exists EmptyString, EmptyString. simpl. rewrite app_nil_r. auto.
  - destruct (p c) eqn:Hc.
    + destruct (greedy p s (acc ++ String c EmptyString) k) eqn:E.
      * intros H. inversion H; subst. apply IH in E as (u & r & -> & Hu & Hk).
        exists (String c u), r. simpl. rewrite Hc, Hu.
        rewrite app_assoc in Hk. auto.
      * intros H. exists EmptyString, (String c s). rewrite app_nil_r. auto.
    + intros H. exists EmptyString, (String c s). rewrite app_nil_r. auto.
Qed.

Lemma rmatch_nil r (k : @cont A) : rmatch r EmptyString k = None.
Proof.
  revert k. induction r as [p|p|r1 IH1 r2 IH2|r IH]; intros k; simpl; auto.
Qed.

Lemma rmatch_first r c s (k : @cont A) :
  first r c = false -> rmatch r (String c s) k = None.
Proof.
  revert k. induction r as [p|p|r1 IH1 r2 IH2|r IH]; intros k; simpl; intros H; auto.
  - now rewrite H.
  - now rewrite H.
Qed.

Lemma plus_run p u r (k : @cont A) :
  Str.nonempty u = true -> Str.all p u = true -> Str.stops p r = true ->
  (forall m c r', p c = true -> k m (String c r') [] = None) ->
  rmatch (Plus p) (u ++ r) k = k u r [].
Proof.
  destruct u as [|x u]; [discriminate|]. intros _ Hu Hr Hk.
  simpl in Hu. apply andb_true_iff in Hu as [Hx Hu].
  simpl. rewrite Hx.
  rewrite (greedy_run p u r (String x EmptyString) (fun m rest => k m rest [])); auto.
Qed.

Lemma plus_first p u r (k : @cont A) x :
  Str.nonempty u = true -> Str.all p u = true -> Str.stops p r = true ->
  k u r [] = Some x ->
  rmatch (Plus p) (u ++ r) k = Some x.
Proof.
  destruct u as [|y u]; [discriminate|]. intros _ Hu Hr Hk.
  simpl in Hu. apply andb_true_iff in Hu as [Hy Hu].
  simpl. rewrite Hy.
  now apply (greedy_first p u r (String y EmptyString) (fun m rest => k m rest [])).
Qed.

Lemma grp_plus_first p u r (k : @cont A) x :
  Str.nonempty u = true -> Str.all p u = true -> Str.stops p r = true ->
  k u r [u] = Some x ->
  rmatch (Grp (Plus p)) (u ++ r) k = Some x.
Proof.
  intros Hn Hu Hr Hk.
  change (rmatch (Grp (Plus p)) (u ++ r) k)
    with (rmatch (Plus p) (u ++ r) (fun m rest g => k m rest (m :: g))).
  now apply plus_first.
Qed.

(** a run of [p] before a pattern that cannot begin with a [p] is
    taken whole: giving characters back never helps *)
Lemma seq_plus_run p R u r (k : @cont A) :
  Str.nonempty u = true -> Str.all p u = true -> Str.stops p r = true ->
  (forall c, p c = true -> first R c = false) ->
  rmatch (Seq (Plus p) R) (u ++ r) k
  = rmatch R r (fun m rest g => k (u ++ m) rest g).
Proof.
  intros Hn Hu Hr HR.
  change (rmatch (Seq (Plus p) R) (u ++ r) k)
    with (rmatch (Plus p) (u ++ r)
            (fun m1 rest1 g1 =>
               rmatch R rest1 (fun m2 rest2 g2 => k (m1 ++ m2) rest2 (g1 ++ g2)%list))).
  rewrite plus_run; auto.
  intros m c r' Hc. apply rmatch_first. auto.
Qed.

Lemma seq_grp_plus_run p R u r (k : @cont A) :
  Str.nonempty u = true -> Str.all p u = true -> Str.stops p r = true ->
  (forall c, p c = true -> first R c = false) ->
  rmatch (Seq (Grp (Plus p)) R) (u ++ r) k
  = rmatch R r (fun m rest g => k (u ++ m) rest (u :: g)).
Proof.
  intros Hn Hu Hr HR.
  change (rmatch (Seq (Grp (Plus p)) R) (u ++ r) k)
    with (rmatch (Plus p) (u ++ r)
            (fun m1 rest1 g1 =>
               rmatch R rest1
                 (fun m2 rest2 g2 => k (m1 ++ m2) rest2 ((m1 :: g1) ++ g2)%list))).
  rewrite plus_run; auto.
  intros m c r' Hc. apply rmatch_first. auto.
Qed.

Lemma seq_cls_step p R c s (k : @cont A) :
  rmatch (Seq (Cls p) R) (String c s) k
  = if p c then rmatch R s (fun m rest g => k (String c m) rest g) else None.
Proof. reflexivity. Qed.

Lemma rmatch_sound r s (k : @cont A) x :
  rmatch r s k = Some x ->
  exists m rest g, s = m ++ rest /\ lang r m g /\ k m rest g = Some x.
Proof.
  revert s k. induction r as [p|p|r1 IH1 r2 IH2|r IH]; intros s k; simpl.
  - destruct s as [|c s]; [discriminate|].
    destruct (p c) eqn:Hc; [|discriminate].
    intros H. exists (String c EmptyString), s, []. repeat split; auto. now constructor.
  - destruct s as [|c s]; [discriminate|]. simpl.
    destruct (p c) eqn:Hc; [|discriminate].
    intros H. apply greedy_sound in H as (u & r & -> & Hu & Hk).
    exists (String c u), r, []. repeat split; auto.
    constructor; simpl; auto. now rewrite Hc, Hu.
  - intros H. apply IH1 in H as (m1 & rest1 & g1 & -> & L1 & H).
    apply IH2 in H as (m2 & rest2 & g2 & -> & L2 & H).
    exists (m1 ++ m2), rest2, (g1 ++ g2)%list. rewrite app_assoc.
    repeat split; auto. now constructor.
  - intros H. apply IH in H as (m & rest & g & -> & L & H).
    exists m, rest, (m :: g). repeat split; auto. now constructor.
Qed.
End Generic.

Lemma lang_nonempty r m g : lang r m g -> Str.nonempty m = true.
Proof.
  induction 1; simpl; auto.
  destruct m1; simpl in *; auto; discriminate.
Qed.

Lemma fails_nil r : fails r EmptyString.
Proof. intros A k. apply rmatch_nil. Qed.

Lemma fails_first r c s : first r c = false -> fails r (String c s).
Proof. intros H A k. now apply rmatch_first. Qed.

Lemma fails_stops r p s :
  (forall c, first r c = true -> p c = true) -> Str.stops p s = true -> fails r s.
Proof.
  intros Hp. destruct s as [|c s]; simpl; intros H.
  - apply fails_nil.
  - apply fails_first. apply negb_true_iff in H.
    destruct (first r c) eqn:E; [|reflexivity].
    apply Hp in E. congruence.
Qed.

Lemma fails_seq_plus p R u r :
  Str.nonempty u = true -> Str.all p u = true -> Str.stops p r = true ->
  (forall c, p c = true -> first R c = false) ->
  fails R r -> fails (Seq (Plus p) R) (u ++ r).
Proof.
  intros Hn Hu Hr HR HF A k. rewrite seq_plus_run; auto.
Qed.

Lemma fails_seq_grp_plus p R u r :
  Str.nonempty u = true -> Str.all p u = true -> Str.stops p r = true ->
  (forall c, p c = true -> first R c = false) ->
  fails R r -> fails (Seq (Grp (Plus p)) R) (u ++ r).
Proof.
  intros Hn Hu Hr HR HF A k. rewrite seq_grp_plus_run; auto.
Qed.

End ReFacts.

(** ** The pattern of [extract_option_details] *)

Module ParserFacts.
Import StrFacts ClassFacts ReFacts.

Lemma unfold_option_re : option_re = Seq (Grp (Plus is_word)) after_ticker.
Proof. reflexivity. Qed.

Lemma unfold_after_ticker : after_ticker = Seq (Plus is_space) from_date.
Proof. reflexivity. Qed.

Lemma unfold_from_date : from_date = Seq (Grp date_re) after_date.
Proof. reflexivity. Qed.

Lemma unfold_after_date : after_date = Seq (Plus is_space) from_flag.
Proof. reflexivity. Qed.

Lemma unfold_from_flag : from_flag = Seq (Grp (Cls is_PC)) after_flag.
Proof. reflexivity. Qed.

Lemma unfold_after_flag : after_flag = Seq (Plus is_space) from_strike.
Proof. reflexivity. Qed.

Lemma unfold_from_strike : from_strike = Grp (Plus is_digit).
Proof. reflexivity. Qed.

Lemma sep_inv w : is_sep w = true -> Str.nonempty w = true /\ Str.all is_space w = true.
Proof. unfold is_sep. now rewrite andb_true_iff. Qed.

Lemma ticker_inv t : is_ticker t = true -> Str.nonempty t = true /\ Str.all is_word t = true.
Proof. unfold is_ticker. now rewrite andb_true_iff. Qed.

Lemma strike_inv n : is_strike n = true -> Str.nonempty n = true /\ Str.all is_digit n = true.
Proof. unfold is_strike. now rewrite andb_true_iff. Qed.

Lemma flag_inv f : is_flag f = true -> exists c, f = String c EmptyString /\ is_PC c = true.
Proof.
  destruct f as [|c [|]]; simpl; try discriminate. intros H. now exists c.
Qed.

Lemma date_inv d :
  is_date d = true ->
  exists a b c e f g,
    d = String a (String b (String "/" (String c (String e (String "/"
          (String f (String g EmptyString))))))) /\
    is_digit a = true /\ is_digit b = true /\ is_digit c = true /\
    is_digit e = true /\ is_digit f = true /\ is_digit g = true.
Proof.
  destruct d as [|a [|b [|s1 [|c [|e [|s2 [|f [|g [|]]]]]]]]]; simpl; try discriminate.
  rewrite !andb_true_iff. intros [[[[[[[Ha Hb] H1] Hc] He] H2] Hf] Hg].
  apply is_char_eq in H1, H2. subst s1 s2.
  exists a, b, c, e, f, g. repeat split; auto.
Qed.

(** the date token is matched by [from_date], which goes on after it *)
Lemma from_date_step {A} d r (k : @cont A) :
  is_date d = true ->
  rmatch from_date (d ++ r) k
  = rmatch after_date r (fun m rest g => k (d ++ m) rest (d :: g)).
Proof.
  intros H. apply date_inv in H as (a & b & c & e & f & g & -> & Ha & Hb & Hc & He & Hf & Hg).
  rewrite unfold_from_date. cbn [rmatch date_re append].
  rewrite Ha, Hb, Hc, He, Hf, Hg. cbn. reflexivity.
Qed.

Lemma from_flag_step {A} c r (k : @cont A) :
  is_PC c = true ->
  rmatch from_flag (String c r) k
  = rmatch after_flag r (fun m rest g => k (String c m) rest (String c EmptyString :: g)).
Proof. intros H. rewrite unfold_from_flag. cbn. now rewrite H. Qed.

(** *** What a token begins with *)

Lemma sep_app w1 w2 : is_sep w1 = true -> is_sep w2 = true -> is_sep (w1 ++ w2) = true.
Proof.
  intros H1 H2. apply sep_inv in H1 as [N1 A1]. apply sep_inv in H2 as [N2 A2].
  unfold is_sep. rewrite all_app, A1, A2. now destruct w1.
Qed.

Lemma starts_run p u r :
  Str.nonempty u = true -> Str.all p u = true -> Str.starts p (u ++ r) = true.
Proof.
  destruct u as [|c u]; [discriminate|]. simpl. intros _ H.
  now apply andb_true_iff in H as [H _].
Qed.

Lemma starts_date d r : is_date d = true -> Str.starts is_digit (d ++ r) = true.
Proof.
  intros H. now apply date_inv in H as (a & b & c & e & f & g & -> & Ha & _).
Qed.

Lemma starts_sep w r : is_sep w = true -> Str.starts is_space (w ++ r) = true.
Proof. intros H. apply sep_inv in H as [N1 A1]. now apply starts_run. Qed.

Lemma starts_ticker t r : is_ticker t = true -> Str.starts is_word (t ++ r) = true.
Proof. intros H. apply ticker_inv in H as [N1 A1]. now apply starts_run. Qed.

Lemma starts_strike n r : is_strike n = true -> Str.starts is_digit (n ++ r) = true.
Proof. intros H. apply strike_inv in H as [N1 A1]. now apply starts_run. Qed.

Lemma starts_flag f r : is_flag f = true -> Str.starts is_PC (f ++ r) = true.
Proof. intros H. now apply flag_inv in H as (c & -> & Hc). Qed.

Lemma lower_flag_inv f : is_lower_flag f = true -> exists c, f = String c EmptyString /\ is_pc c = true.
Proof.
  destruct f as [|c [|]]; simpl; try discriminate. intros H. now exists c.
Qed.

Lemma starts_lower_flag f r : is_lower_flag f = true -> Str.starts is_pc (f ++ r) = true.
Proof. intros H. now apply lower_flag_inv in H as (c & -> & Hc). Qed.

Lemma starts_alone p (tok : string -> bool) s :
  (forall r, tok s = true -> Str.starts p (s ++ r) = true) ->
  tok s = true -> Str.starts p s = true.
Proof. intros H Hs. rewrite <- (app_nil_r s). auto. Qed.

Lemma starts_date0 d : is_date d = true -> Str.starts is_digit d = true.
Proof. apply starts_alone. intros r. apply starts_date. Qed.

Lemma starts_sep0 w : is_sep w = true -> Str.starts is_space w = true.
Proof. apply starts_alone. intros r. apply starts_sep. Qed.

Lemma starts_strike0 n : is_strike n = true -> Str.starts is_digit n = true.
Proof. apply starts_alone. intros r. apply starts_strike. Qed.

Lemma starts_flag0 f : is_flag f = true -> Str.starts is_PC f = true.
Proof. apply starts_alone. intros r. apply starts_flag. Qed.

(** a string that starts in one class stops every class disjoint from it *)
Lemma starts_stops (q p : ascii -> bool) s :
  (forall c, q c = true -> p c = false) ->
  Str.starts q s = true -> Str.stops p s = true.
Proof.
  intros Hqp. destruct s as [|c s]; simpl; [reflexivity|].
  intros H. now rewrite (Hqp _ H).
Qed.

(** and no match of a pattern begins there when the pattern cannot
    begin in that class *)
Lemma starts_fails (q : ascii -> bool) R s :
  (forall c, q c = true -> first R c = false) ->
  Str.starts q s = true -> fails R s.
Proof.
  intros HqR. destruct s as [|c s]; simpl; [discriminate|].
  intros H. apply fails_first. auto.
Qed.

Lemma stops_nil p : Str.stops p EmptyString = true.
Proof. reflexivity. Qed.

Lemma pc_word c : is_pc c = true -> is_word c = true.
Proof. by_cases c. Qed.

Lemma pc_not_space c : is_pc c = true -> is_space c = false.
Proof. by_cases c. Qed.

Lemma pc_not_digit c : is_pc c = true -> is_digit c = false.
Proof. by_cases c. Qed.

Lemma pc_not_PC c : is_pc c = true -> is_PC c = false.
Proof. by_cases c. Qed.

Create HintDb tok.

#[local] Hint Resolve starts_date starts_sep starts_ticker starts_strike
  starts_flag starts_lower_flag stops_nil sep_app fails_nil
  starts_date0 starts_sep0 starts_strike0 starts_flag0 : tok.

#[local] Hint Resolve space_not_word space_not_digit space_not_PC word_not_space
  digit_not_space digit_not_PC PC_not_space PC_not_digit pc_not_space
  pc_not_digit pc_not_PC : tok.

(** discharges the side conditions on what the rest of a string starts with *)
Ltac tok :=
  match goal with
  | |- Str.stops _ EmptyString = true => reflexivity
  | |- Str.stops is_space _ = true =>
      first [ apply (starts_stops is_digit); [exact digit_not_space | solve [auto with tok]]
            | apply (starts_stops is_PC); [exact PC_not_space | solve [auto with tok]]
            | apply (starts_stops is_pc); [exact pc_not_space | solve [auto with tok]]
            | apply (starts_stops is_word); [exact word_not_space | solve [auto with tok]] ]
  | |- Str.stops is_word _ = true =>
      apply (starts_stops is_space); [exact space_not_word | solve [auto with tok]]
  | |- Str.stops is_digit _ = true =>
      first [ apply (starts_stops is_space); [exact space_not_digit | solve [auto with tok]]
            | apply (starts_stops is_PC); [exact PC_not_digit | solve [auto with tok]] ]
  | |- forall c, _ = true -> first _ c = false => intros ? ?; cbn; auto with tok
  | _ => auto with tok
  end.

(** *** A description of the expected shape *)

Lemma after_ticker_hit {A} w1 d w2 f w3 n rest (k : @cont A) x :
  is_sep w1 = true -> is_date d = true -> is_sep w2 = true ->
  is_flag f = true -> is_sep w3 = true -> is_strike n = true ->
  Str.stops is_digit rest = true ->
  k (w1 ++ d ++ w2 ++ f ++ w3 ++ n) rest [d; f; n] = Some x ->
  rmatch after_ticker (w1 ++ d ++ w2 ++ f ++ w3 ++ n ++ rest) k = Some x.
Proof.
  intros H1 Hd H2 Hf H3 Hn Hr Hk.
  destruct (sep_inv _ H1) as [N1 A1]. destruct (sep_inv _ H2) as [N2 A2].
  destruct (sep_inv _ H3) as [N3 A3]. destruct (strike_inv _ Hn) as [Nn An].
  rewrite unfold_after_ticker, seq_plus_run; tok.
  rewrite from_date_step by assumption.
  rewrite unfold_after_date, seq_plus_run; tok.
  destruct (flag_inv _ Hf) as (c & -> & Hc).
  change (String c EmptyString ++ w3 ++ n ++ rest) with (String c (w3 ++ n ++ rest)).
  rewrite from_flag_step by assumption.
  rewrite unfold_after_flag, seq_plus_run; tok.
  rewrite unfold_from_strike.
  apply grp_plus_first; auto.
Qed.

Lemma search_unfold r s :
  search r s =
  match match_at r s with
  | Some (_, _, g) => Some g
  | None => match s with String _ s' => search r s' | EmptyString => None end
  end.
Proof. destruct s; reflexivity. Qed.

Theorem search_shape t w1 d w2 f w3 n rest :
  is_ticker t = true -> is_sep w1 = true -> is_date d = true -> is_sep w2 = true ->
  is_flag f = true -> is_sep w3 = true -> is_strike n = true ->
  Str.stops is_digit rest = true ->
  search option_re (t ++ w1 ++ d ++ w2 ++ f ++ w3 ++ n ++ rest) = Some [t; d; f; n].
Proof.
  intros Ht H1 Hd H2 Hf H3 Hn Hr.
  destruct (ticker_inv _ Ht) as [Nt At].
  rewrite search_unfold. unfold match_at.
  rewrite unfold_option_re, seq_grp_plus_run; tok.
  rewrite (after_ticker_hit w1 d w2 f w3 n rest _
             (t ++ w1 ++ d ++ w2 ++ f ++ w3 ++ n, rest, [t; d; f; n]));
    auto.
Qed.

(** *** Where the search finds nothing *)

Lemma fails_after_ticker w r :
  is_sep w = true -> Str.stops is_space r = true -> fails from_date r ->
  fails after_ticker (w ++ r).
Proof.
  intros H Hr HF. apply sep_inv in H as [N1 A1].
  rewrite unfold_after_ticker. apply fails_seq_plus; auto. tok.
Qed.

Lemma fails_after_date w r :
  is_sep w = true -> Str.stops is_space r = true -> fails from_flag r ->
  fails after_date (w ++ r).
Proof.
  intros H Hr HF. apply sep_inv in H as [N1 A1].
  rewrite unfold_after_date. apply fails_seq_plus; auto. tok.
Qed.

Lemma fails_after_flag w r :
  is_sep w = true -> Str.stops is_space r = true -> fails from_strike r ->
  fails after_flag (w ++ r).
Proof.
  intros H Hr HF. apply sep_inv in H as [N1 A1].
  rewrite unfold_after_flag. apply fails_seq_plus; auto. tok.
Qed.

Lemma fails_from_date d r :
  is_date d = true -> fails after_date r -> fails from_date (d ++ r).
Proof. intros H HF A k. rewrite from_date_step by assumption. apply HF. Qed.

Lemma fails_from_flag f r :
  is_flag f = true -> fails after_flag r -> fails from_flag (f ++ r).
Proof.
  intros H HF A k. apply flag_inv in H as (c & -> & Hc).
  change (String c EmptyString ++ r) with (String c r).
  rewrite from_flag_step by assumption. apply HF.
Qed.

(** a run of digits alone holds no date *)
Lemma fails_from_date_digits n : Str.all is_digit n = true -> fails from_date n.
Proof.
  intros H A k. rewrite unfold_from_date.
  destruct n as [|a [|b [|c n]]]; cbn; try reflexivity.
  - now destruct (is_digit a).
  - now destruct (is_digit a), (is_digit b).
  - simpl in H. rewrite !andb_true_iff in H. destruct H as (Ha & Hb & Hc & _).
    rewrite Ha, Hb. cbn. now rewrite (digit_not_slash _ Hc).
Qed.

Lemma search_skip c s :
  is_word c = false -> search option_re (String c s) = search option_re s.
Proof.
  intros H. rewrite search_unfold. unfold match_at.
  now rewrite rmatch_first.
Qed.

Lemma search_nil : search option_re EmptyString = None.
Proof. reflexivity. Qed.

Lemma search_sep w r :
  Str.all is_space w = true -> search option_re (w ++ r) = search option_re r.
Proof.
  induction w as [|c w IH]; [reflexivity|].
  intros H. simpl in H. apply andb_true_iff in H as [Hc Hw].
  change (String c w ++ r) with (String c (w ++ r)).
  rewrite search_skip; auto using space_not_word.
Qed.

(** a run of word characters from which the rest of the pattern finds
    nothing holds no starting point of a match *)
Lemma search_word u r :
  Str.all is_word u = true -> Str.stops is_word r = true ->
  fails after_ticker r ->
  search option_re (u ++ r) = search option_re r.
Proof.
  intros Hu Hr HF. induction u as [|c u IH]; [reflexivity|].
  pose proof Hu as Hu'. simpl in Hu'. apply andb_true_iff in Hu' as [Hc Hu'].
  rewrite search_unfold. unfold match_at.
  rewrite unfold_option_re, seq_grp_plus_run; auto; [|tok].
  rewrite HF. change (String c u ++ r) with (String c (u ++ r)). auto.
Qed.

Lemma search_date u d v r :
  Str.all is_word u = true -> is_date d = true -> Str.all is_word v = true ->
  Str.stops is_word r = true -> fails after_ticker r ->
  search option_re (u ++ d ++ v ++ r) = search option_re r.
Proof.
  intros Hu Hd Hv Hr HF.
  apply date_inv in Hd as (a & b & c & e & f & g & -> & Ha & Hb & Hc & He & Hf & Hg).
  apply digit_word in Ha, Hb, Hc, He, Hf, Hg.
  set (tl3 := String f (String g EmptyString) ++ v).
  set (tl2 := String c (String e EmptyString)).
  set (tl1 := u ++ String a (String b EmptyString)).
  replace (u ++ _) with (tl1 ++ String "/" (tl2 ++ String "/" (tl3 ++ r))).
  2:{ unfold tl1, tl2, tl3. rewrite !app_assoc. reflexivity. }
  rewrite search_word, search_skip; try reflexivity.
  - rewrite search_word, search_skip; try reflexivity.
    + apply search_word; auto.
      unfold tl3. simpl. now rewrite Hf, Hg.
    + unfold tl2. simpl. now rewrite Hc, He.
    + now apply fails_first.
  - unfold tl1. rewrite all_app, Hu. simpl. now rewrite Ha, Hb.
  - now apply fails_first.
Qed.

Lemma word_of_ticker t : is_ticker t = true -> Str.all is_word t = true.
Proof. intros H. now apply ticker_inv in H. Qed.

Lemma word_of_strike n : is_strike n = true -> Str.all is_word n = true.
Proof.
  intros H. apply strike_inv in H as [_ H].
  apply (all_impl is_digit); [exact digit_word | exact H].
Qed.

Lemma word_of_flag f : is_flag f = true -> Str.all is_word f = true.
Proof.
  intros H. apply flag_inv in H as (c & -> & Hc). simpl.
  now rewrite (PC_word _ Hc).
Qed.

Lemma word_of_lower_flag f : is_lower_flag f = true -> Str.all is_word f = true.
Proof.
  intros H. apply lower_flag_inv in H as (c & -> & Hc). simpl.
  now rewrite (pc_word _ Hc).
Qed.

Lemma space_of_sep w : is_sep w = true -> Str.all is_space w = true.
Proof. intros H. now apply sep_inv in H. Qed.

Lemma digit_of_strike n : is_strike n = true -> Str.all is_digit n = true.
Proof. intros H. now apply strike_inv in H. Qed.

#[local] Hint Resolve word_of_ticker word_of_strike word_of_flag
  word_of_lower_flag space_of_sep digit_of_strike : tok.

(** no match begins where the text starts in a class the pattern cannot
    start in *)
Ltac dead :=
  first [ apply fails_nil
        | apply (starts_fails is_space); [tok | solve [auto with tok]]
        | apply (starts_fails is_digit); [tok | solve [auto with tok]]
        | apply (starts_fails is_PC); [tok | solve [auto with tok]]
        | apply (starts_fails is_pc); [tok | solve [auto with tok]] ].

Lemma extract_none s : search option_re s = None -> extract_option_details s = None.
Proof. unfold extract_option_details. now intros ->. Qed.

Lemma search_date0 d r :
  is_date d = true -> Str.stops is_word r = true -> fails after_ticker r ->
  search option_re (d ++ r) = search option_re r.
Proof. intros. now apply (search_date EmptyString d EmptyString r). Qed.

Lemma search_date_then d v r :
  is_date d = true -> Str.all is_word v = true ->
  Str.stops is_word r = true -> fails after_ticker r ->
  search option_re (d ++ v ++ r) = search option_re r.
Proof. intros. now apply (search_date EmptyString d v r). Qed.

Section Tokens.
Variables t w1 d w2 f w3 n : string.
Hypothesis Ht : is_ticker t = true.
Hypothesis H1 : is_sep w1 = true.
Hypothesis Hd : is_date d = true.
Hypothesis H2 : is_sep w2 = true.
Hypothesis Hf : is_flag f = true.
Hypothesis H3 : is_sep w3 = true.
Hypothesis Hn : is_strike n = true.

Lemma strike_alone : search option_re n = None.
Proof.
  rewrite <- (app_nil_r n), search_word; auto with tok.
Qed.

Lemma sep_strike : fails after_ticker (w3 ++ n).
Proof.
  apply fails_after_ticker; auto; [tok|].
  apply fails_from_date_digits; auto with tok.
Qed.

Lemma from_flag_on : search option_re (f ++ w3 ++ n) = None.
Proof.
  rewrite search_word; auto with tok; [|tok | exact sep_strike].
  rewrite search_sep by auto with tok. exact strike_alone.
Qed.

Lemma no_ticker : search option_re (w1 ++ d ++ w2 ++ f ++ w3 ++ n) = None.
Proof.
  rewrite search_sep by auto with tok.
  rewrite search_date0; auto; [|tok|].
  - rewrite search_sep by auto with tok. exact from_flag_on.
  - apply fails_after_ticker; auto; [tok | dead].
Qed.

Lemma no_date : search option_re (t ++ w1 ++ w2 ++ f ++ w3 ++ n) = None.
Proof.
  rewrite search_word; auto with tok; [| tok |].
  - rewrite !search_sep by auto with tok. exact from_flag_on.
  - rewrite <- app_assoc. apply fails_after_ticker; auto with tok; [tok | dead].
Qed.

Lemma no_flag : search option_re (t ++ w1 ++ d ++ w2 ++ w3 ++ n) = None.
Proof.
  rewrite search_word; auto with tok; [| tok |].
  - rewrite search_sep by auto with tok.
    rewrite search_date0; auto; [| tok |].
    + rewrite !search_sep by auto with tok. exact strike_alone.
    + rewrite <- app_assoc. apply fails_after_ticker; auto with tok; [tok|].
      apply fails_from_date_digits; auto with tok.
  - apply fails_after_ticker; auto; [tok|].
    apply fails_from_date; auto.
    rewrite <- app_assoc. apply fails_after_date; auto with tok; [tok | dead].
Qed.

Lemma no_strike : search option_re (t ++ w1 ++ d ++ w2 ++ f ++ w3) = None.
Proof.
  assert (E : fails after_ticker w3).
  { rewrite <- (app_nil_r w3). apply fails_after_ticker; auto; dead. }
  rewrite search_word; auto with tok; [| tok |].
  - rewrite search_sep by auto with tok.
    rewrite search_date0; auto; [| tok |].
    + rewrite search_sep by auto with tok.
      rewrite search_word; auto with tok; [| tok].
      rewrite <- (app_nil_r w3), search_sep by auto with tok. reflexivity.
    + apply fails_after_ticker; auto; [tok | dead].
  - apply fails_after_ticker; auto; [tok|].
    apply fails_from_date; auto.
    apply fails_after_date; auto; [tok|].
    apply fails_from_flag; auto.
    rewrite <- (app_nil_r w3). apply fails_after_flag; auto; dead.
Qed.

Lemma no_first_sep : search option_re (t ++ d ++ w2 ++ f ++ w3 ++ n) = None.
Proof.
  rewrite <- (app_nil_r d) at 1. rewrite (app_assoc d).
  rewrite search_date; auto with tok; [| tok |].
  - rewrite search_sep by auto with tok. exact from_flag_on.
  - apply fails_after_ticker; auto; [tok | dead].
Qed.

Lemma no_second_sep : search option_re (t ++ w1 ++ d ++ f ++ w3 ++ n) = None.
Proof.
  rewrite search_word; auto with tok; [| tok |].
  - rewrite search_sep by auto with tok.
    rewrite search_date_then; auto with tok; [| tok | exact sep_strike].
    rewrite search_sep by auto with tok. exact strike_alone.
  - apply fails_after_ticker; auto; [tok|].
    apply fails_from_date; auto. dead.
Qed.

Lemma no_third_sep : search option_re (t ++ w1 ++ d ++ w2 ++ f ++ n) = None.
Proof.
  assert (E : Str.all is_word (f ++ n) = true).
  { rewrite all_app. rewrite word_of_flag, word_of_strike; auto. }
  rewrite search_word; auto with tok; [| tok |].
  - rewrite search_sep by auto with tok.
    rewrite search_date0; auto; [| tok |].
    + rewrite search_sep by auto with tok.
      rewrite <- (app_nil_r n), <- app_assoc.
      rewrite search_word; auto. dead.
    + apply fails_after_ticker; auto; [tok | dead].
  - apply fails_after_ticker; auto; [tok|].
    apply fails_from_date; auto.
    apply fails_after_date; auto; [tok|].
    apply fails_from_flag; auto. dead.
Qed.

Lemma lower_flag f' :
  is_lower_flag f' = true ->
  search option_re (t ++ w1 ++ d ++ w2 ++ f' ++ w3 ++ n) = None.
Proof.
  intros Hf'.
  rewrite search_word; auto with tok; [| tok |].
  - rewrite search_sep by auto with tok.
    rewrite search_date0; auto; [| tok |].
    + rewrite search_sep by auto with tok.
      rewrite search_word; auto with tok; [| tok | exact sep_strike].
      rewrite search_sep by auto with tok. exact strike_alone.
    + apply fails_after_ticker; auto; [tok | dead].
  - apply fails_after_ticker; auto; [tok|].
    apply fails_from_date; auto.
    apply fails_after_date; auto; [tok | dead].
Qed.
End Tokens.

End ParserFacts.

(** ** What a successful parse returns, and the composite key *)

Module KeyFacts.
Import StrFacts ClassFacts ReFacts ParserFacts.

Lemma search_sound r s g :
  search r s = Some g ->
  exists pre m rest, s = pre ++ m ++ rest /\ lang r m g.
Proof.
  induction s as [|c s IH]; rewrite search_unfold; unfold match_at.
  - now rewrite rmatch_nil.
  - destruct (rmatch r (String c s) (fun m rest g0 => Some (m, rest, g0)))
      as [[[m rest] g0]|] eqn:E.
    + intros H. inversion H; subst.
      apply rmatch_sound in E as (m' & rest' & g' & Hs & L & Hk).
      inversion Hk; subst. exists EmptyString, m, rest. auto.
    + intros H. apply IH in H as (pre & m & rest & -> & L).
      exists (String c pre), m, rest. auto.
Qed.

Ltac inv_lang :=
  repeat match goal with
    | H : lang (Seq _ _) _ _ |- _ => inversion H; subst; clear H
    | H : lang (Grp _) _ _ |- _ => inversion H; subst; clear H
    | H : lang (Cls _) _ _ |- _ => inversion H; subst; clear H
    | H : lang (Plus _) _ _ |- _ => inversion H; subst; clear H
    end.

Lemma lang_option_re m g :
  lang option_re m g ->
  exists t w1 d w2 f w3 n,
    m = t ++ w1 ++ d ++ w2 ++ f ++ w3 ++ n /\ g = [t; d; f; n] /\
    is_ticker t = true /\ is_sep w1 = true /\ is_date d = true /\
    is_sep w2 = true /\ is_flag f = true /\ is_sep w3 = true /\
    is_strike n = true.
Proof.
  unfold option_re, date_re. intros H. inv_lang.
  repeat match goal with
    | |- exists _, _ => eexists
    end.
  split; [reflexivity|]. split; [reflexivity|].
  unfold is_ticker, is_sep, is_strike, is_date, is_flag. cbn.
  repeat match goal with
    | H : _ = true |- _ => rewrite H; clear H
    end.
  cbn. repeat split.
Qed.

(** a parse that succeeds has found the five tokens in the description *)
Lemma extract_sound s t e o k :
  extract_option_details s = Some (t, e, o, k) ->
  exists pre w1 w2 w3 post,
    s = pre ++ t ++ w1 ++ e ++ w2 ++ o ++ w3 ++ k ++ post /\
    is_ticker t = true /\ is_sep w1 = true /\ is_date e = true /\
    is_sep w2 = true /\ is_flag o = true /\ is_sep w3 = true /\
    is_strike k = true.
Proof.
  unfold extract_option_details.
  destruct (search option_re s) as [g|] eqn:E; [|discriminate].
  apply search_sound in E as (pre & m & rest & -> & L).
  apply lang_option_re in L
    as (t' & w1 & d & w2 & f & w3 & n & -> & -> & Ht & H1 & Hd & H2 & Hf & H3 & Hn).
  intros H. inversion H; subst.
  exists pre, w1, w2, w3, rest. rewrite !app_assoc. auto 10.
Qed.

Lemma cut_at_blank a b a' b' :
  Str.all not_blank a = true -> Str.all not_blank a' = true ->
  a ++ String " " b = a' ++ String " " b' -> a = a' /\ b = b'.
Proof.
  revert a'. induction a as [|x a IH]; intros [|y a']; simpl.
  - intros _ _ H. inversion H. auto.
  - intros _ H E. inversion E; subst. discriminate.
  - intros H _ E. inversion E; subst. discriminate.
  - intros H H' E. apply andb_true_iff in H as [_ H], H' as [_ H'].
    inversion E; subst. destruct (IH a' H H' H2) as [-> ->]. auto.
Qed.

Lemma word_not_blank c : is_word c = true -> not_blank c = true.
Proof. by_cases c. Qed.

Lemma digit_not_blank c : is_digit c = true -> not_blank c = true.
Proof. by_cases c. Qed.

Lemma PC_not_blank c : is_PC c = true -> not_blank c = true.
Proof. by_cases c. Qed.

Lemma ticker_no_blank t : is_ticker t = true -> Str.all not_blank t = true.
Proof.
  intros H. apply ticker_inv in H as [_ H].
  apply (all_impl is_word); [exact word_not_blank | exact H].
Qed.

Lemma date_no_blank d : is_date d = true -> Str.all not_blank d = true.
Proof.
  intros H. apply date_inv in H as (a & b & c & e & f & g & -> & Ha & Hb & Hc & He & Hf & Hg).
  simpl. now rewrite !digit_not_blank.
Qed.

Lemma flag_no_blank f : is_flag f = true -> Str.all not_blank f = true.
Proof.
  intros H. apply flag_inv in H as (c & -> & Hc). simpl. now rewrite PC_not_blank.
Qed.

(** two identities with the same composite key are the same identity *)
Lemma option_key_inj t e o k t' e' o' k' :
  is_ticker t = true -> is_date e = true -> is_flag o = true ->
  is_ticker t' = true -> is_date e' = true -> is_flag o' = true ->
  option_key t e o k = option_key t' e' o' k' ->
  t = t' /\ e = e' /\ o = o' /\ k = k'.
Proof.
  intros Ht He Ho Ht' He' Ho'. unfold option_key.
  change (" " ++ ?x) with (String " " x).
  intros H.
  apply cut_at_blank in H as [-> H]; auto using ticker_no_blank.
  apply cut_at_blank in H as [-> H]; auto using date_no_blank.
  apply cut_at_blank in H as [-> H]; auto using flag_no_blank.
Qed.

(** a composite key holds a blank, a string without one is none *)
Lemma no_blank_not_key s t e o k :
  Str.all not_blank s = true -> s <> option_key t e o k.
Proof.
  intros H ->. unfold option_key in H. rewrite all_app in H.
  apply andb_true_iff in H as [_ H]. discriminate.
Qed.

End KeyFacts.

(** ** The dictionary *)

Module DictFacts.
Section WithPlatform.
Context {P : Platform}.

Lemma get_set_same d k v : Dict.get (Dict.set d k v) k = Some v.
Proof.
  induction d as [|[k' v'] d IH]; simpl.
  - now rewrite String.eqb_refl.
  - destruct (String.eqb k' k) eqn:E; simpl; now rewrite E.
Qed.

Lemma get_set_other d k k' v :
  k <> k' -> Dict.get (Dict.set d k v) k' = Dict.get d k'.
Proof.
  intros N. induction d as [|[k0 v0] d IH]; simpl.
  - apply String.eqb_neq in N. now rewrite N.
  - destruct (String.eqb k0 k) eqn:E; simpl.
    + apply String.eqb_eq in E. subst k0.
      apply String.eqb_neq in N. now rewrite N.
    + now rewrite IH.
Qed.

Lemma mem_In d k : Dict.mem d k = true <-> In k (Dict.keys d).
Proof.
  unfold Dict.mem. rewrite existsb_exists. split.
  - intros (x & Hx & E). apply String.eqb_eq in E. now subst.
  - intros H. exists k. split; [assumption | apply String.eqb_refl].
Qed.

Lemma mem_get d k :
  Dict.mem d k = match Dict.get d k with Some _ => true | None => false end.
Proof.
  unfold Dict.mem, Dict.keys. induction d as [|[k' v'] d IH]; simpl; [reflexivity|].
  rewrite (String.eqb_sym k k'). destruct (String.eqb k' k); simpl; auto.
Qed.

Lemma keys_set d k v :
  Dict.keys (Dict.set d k v)
  = if Dict.mem d k then Dict.keys d else (Dict.keys d ++ [k])%list.
Proof.
  unfold Dict.mem, Dict.keys. induction d as [|[k' v'] d IH]; simpl; [reflexivity|].
  rewrite (String.eqb_sym k k'). destruct (String.eqb k' k) eqn:E; simpl.
  - reflexivity.
  - rewrite IH. now destruct (existsb (String.eqb k) (map fst d)).
Qed.

Lemma In_keys_set d k v x :
  In x (Dict.keys (Dict.set d k v)) <-> x = k \/ In x (Dict.keys d).
Proof.
  rewrite keys_set. destruct (Dict.mem d k) eqn:E.
  - apply mem_In in E. split; [auto|]. intros [-> | H]; auto.
  - rewrite in_app_iff. simpl. split; intros H.
    + destruct H as [H | [H | []]]; auto.
    + destruct H as [H | H]; auto.
Qed.

Lemma nodup_set d k v : NoDup (Dict.keys d) -> NoDup (Dict.keys (Dict.set d k v)).
Proof.
  intros H. rewrite keys_set. destruct (Dict.mem d k) eqn:E; [assumption|].
  apply NoDup_app; [assumption | repeat constructor; simpl; tauto |].
  intros x Hx [<- | []]. apply mem_In in Hx. congruence.
Qed.

Lemma entries_absent d k : ~ In k (Dict.keys d) -> Dict.entries d k = 0%nat.
Proof.
  unfold Dict.entries, Dict.keys. induction d as [|[k' v'] d IH]; simpl; [reflexivity|].
  intros H. destruct (String.eqb k' k) eqn:E.
  - apply String.eqb_eq in E. tauto.
  - apply IH. tauto.
Qed.

(** a dictionary holds one entry under each of its keys *)
Lemma entries_present d k :
  NoDup (Dict.keys d) -> In k (Dict.keys d) -> Dict.entries d k = 1%nat.
Proof.
  unfold Dict.entries, Dict.keys. induction d as [|[k' v'] d IH]; simpl; [tauto|].
  intros ND H. inversion ND as [|? ? Hk ND']; subst.
  destruct (String.eqb k' k) eqn:E.
  - apply String.eqb_eq in E. subst k'. simpl. f_equal.
    now apply (entries_absent d k).
  - apply IH; auto. destruct H as [H | H]; auto.
    apply String.eqb_neq in E. congruence.
Qed.

End WithPlatform.
End DictFacts.

(** ** The two loops of [analyze_performance] *)

Module EngineFacts.
Import DictFacts.
Section WithPlatform.
Context {P : Platform}.

Lemma analyze_unfold data :
  analyze_performance data
  = if accepted data
    then for_each (option_step (option_sell data)) (option_buy data) (after_stocks data)
    else None.
Proof.
  unfold analyze_performance, accepted.
  destruct (str_accessor (amount_stripped data)),
           (str_accessor (map Trans_Code data)); reflexivity.
Qed.

(** what is returned is what the two loops leave *)
Lemma analyze_some data res :
  analyze_performance data = Some res ->
  for_each (option_step (option_sell data)) (option_buy data) (after_stocks data)
  = Some res.
Proof.
  rewrite analyze_unfold. now destruct (accepted data).
Qed.

Lemma analyze_accepted data res :
  analyze_performance data = Some res -> accepted data = true.
Proof.
  rewrite analyze_unfold. now destruct (accepted data).
Qed.

(** *** The tickers *)

Lemma In_dropna l x : In x (dropna l) <-> In (Some x) l.
Proof.
  induction l as [|[y|] l IH]; simpl; [tauto | |].
  - rewrite IH. split; intros [H | H]; auto; left; congruence.
  - rewrite IH. split; [auto | intros [H | H]; [discriminate | auto]].
Qed.

Lemma existsb_eqb x l : existsb (String.eqb x) l = true <-> In x l.
Proof.
  rewrite existsb_exists. split.
  - intros (y & Hy & E). apply String.eqb_eq in E. now subst.
  - intros H. exists x. split; [assumption | apply String.eqb_refl].
Qed.

Lemma In_unique_from seen l x :
  In x (unique_from seen l) <-> In x l /\ ~ In x seen.
Proof.
  revert seen. induction l as [|y l IH]; intros seen; simpl; [tauto|].
  destruct (existsb (String.eqb y) seen) eqn:E.
  - apply existsb_eqb in E. rewrite IH. split.
    + tauto.
    + intros [[-> | H] N]; tauto.
  - assert (Ny : ~ In y seen).
    { intros H. apply existsb_eqb in H. congruence. }
    simpl. rewrite IH. simpl. split.
    + intros [-> | [H N]]; tauto.
    + intros [[-> | H] N]; [tauto|].
      destruct (string_dec y x) as [-> | D]; [tauto|]. right. tauto.
Qed.

Lemma In_unique l x : In x (unique l) <-> In x l.
Proof. unfold unique. rewrite In_unique_from. simpl. tauto. Qed.

Lemma NoDup_unique_from seen l : NoDup (unique_from seen l).
Proof.
  revert seen. induction l as [|y l IH]; intros seen; simpl; [constructor|].
  destruct (existsb (String.eqb y) seen); [apply IH|].
  constructor; [|apply IH].
  rewrite In_unique_from. simpl. tauto.
Qed.

Lemma NoDup_unique l : NoDup (unique l).
Proof. apply NoDup_unique_from. Qed.

Lemma instrument_is_true ticker r :
  instrument_is ticker r = true <-> Instrument r = Some ticker.
Proof.
  unfold instrument_is. destruct (Instrument r) as [i|].
  - rewrite String.eqb_eq. split; congruence.
  - split; discriminate.
Qed.

Lemma is_empty_false {X} (l : list X) : is_empty l = false <-> l <> [].
Proof. destruct l; simpl; split; congruence. Qed.

Lemma is_empty_true {X} (l : list X) : is_empty l = true <-> l = [].
Proof. destruct l; simpl; split; congruence. Qed.

Lemma filter_nonempty {X} (p : X -> bool) l :
  List.filter p l <> [] <-> exists x, In x l /\ p x = true.
Proof.
  split.
  - destruct (List.filter p l) as [|x l'] eqn:E; [congruence|].
    intros _. exists x. apply filter_In. rewrite E. now left.
  - intros (x & Hx & Hp) E.
    assert (H : In x (List.filter p l)) by (apply filter_In; auto).
    now rewrite E in H.
Qed.

(** the tickers are the instruments that have a Buy row *)
Lemma In_tickers data ticker :
  In ticker (tickers data) <-> buys_of data ticker <> [].
Proof.
  unfold tickers, buys_of. rewrite In_unique, In_dropna, in_map_iff, filter_nonempty.
  split; intros (r & H1 & H2); exists r.
  - split; [assumption | now apply instrument_is_true].
  - split; [now apply instrument_is_true | assumption].
Qed.

(** *** The loop over the tickers *)

Section Stocks.
Variables B S : list num_row.

Lemma stock_step_resolved p u k :
  stock_step B S (p, u) k
  = if resolved B S k then (stock_write B S p k, u) else (p, (u ++ [k])%list).
Proof. reflexivity. Qed.

Lemma stock_fold l p u :
  fold_left (stock_step B S) l (p, u)
  = (fold_left (stock_write B S) (List.filter (resolved B S) l) p,
     (u ++ List.filter (fun k => negb (resolved B S k)) l)%list).
Proof.
  revert p u. induction l as [|k l IH]; intros p u.
  - simpl. now rewrite List.app_nil_r.
  - cbn [fold_left List.filter]. rewrite stock_step_resolved.
    destruct (resolved B S k) eqn:E; cbn [negb]; rewrite IH.
    + reflexivity.
    + now rewrite <- List.app_assoc.
Qed.

Lemma get_writes l p k :
  Dict.get (fold_left (stock_write B S) l p) k
  = if existsb (String.eqb k) l
    then Some (stock_perf (List.filter (instrument_is k) B)
                          (List.filter (instrument_is k) S))
    else Dict.get p k.
Proof.
  revert p. induction l as [|x l IH]; intros p; simpl; [reflexivity|].
  rewrite IH. destruct (existsb (String.eqb k) l); [now rewrite orb_true_r|].
  rewrite orb_false_r. unfold stock_write.
  destruct (String.eqb k x) eqn:E.
  - apply String.eqb_eq in E. subst x. apply get_set_same.
  - apply String.eqb_neq in E. apply get_set_other. congruence.
Qed.

Lemma keys_writes l p x :
  In x (Dict.keys (fold_left (stock_write B S) l p)) <-> In x l \/ In x (Dict.keys p).
Proof.
  revert p. induction l as [|y l IH]; intros p; simpl; [tauto|].
  rewrite IH. unfold stock_write. rewrite In_keys_set. split; intros H.
  - destruct H as [H | [-> | H]]; auto.
  - destruct H as [[-> | H] | H]; auto.
Qed.

Lemma nodup_writes l p :
  NoDup (Dict.keys p) -> NoDup (Dict.keys (fold_left (stock_write B S) l p)).
Proof.
  revert p. induction l as [|y l IH]; intros p H; simpl; [assumption|].
  apply IH. unfold stock_write. now apply nodup_set.
Qed.
End Stocks.

Lemma resolved_iff data ticker :
  resolved (stock_buy data) (stock_sell data) ticker = true
  <-> buys_of data ticker <> [] /\ sells_of data ticker <> [].
Proof.
  unfold resolved, buys_of, sells_of.
  rewrite andb_true_iff, !negb_true_iff, !is_empty_false. tauto.
Qed.

Lemma stocks_get data ticker :
  buys_of data ticker <> [] -> sells_of data ticker <> [] ->
  Dict.get (fst (after_stocks data)) ticker
  = Some (stock_perf (buys_of data ticker) (sells_of data ticker)).
Proof.
  intros HB HS. unfold after_stocks. rewrite stock_fold. simpl.
  rewrite get_writes.
  assert (E : existsb (String.eqb ticker)
                (List.filter (resolved (stock_buy data) (stock_sell data)) (tickers data))
              = true).
  { apply existsb_eqb, filter_In. split.
    - now apply In_tickers.
    - now apply resolved_iff. }
  now rewrite E.
Qed.

Lemma stocks_keys data k :
  In k (Dict.keys (fst (after_stocks data)))
  <-> buys_of data k <> [] /\ sells_of data k <> [].
Proof.
  unfold after_stocks. rewrite stock_fold. simpl.
  rewrite keys_writes, filter_In, resolved_iff, In_tickers. simpl. tauto.
Qed.

Lemma stocks_nodup data : NoDup (Dict.keys (fst (after_stocks data))).
Proof.
  unfold after_stocks. rewrite stock_fold. simpl.
  apply nodup_writes. constructor.
Qed.

Lemma stocks_unresolved data k :
  In k (snd (after_stocks data))
  <-> buys_of data k <> [] /\ sells_of data k = [].
Proof.
  unfold after_stocks. rewrite stock_fold. simpl.
  rewrite filter_In, In_tickers, negb_true_iff.
  split.
  - intros [HB HR]. split; [assumption|].
    destruct (sells_of data k) eqn:E; [reflexivity|].
    assert (R : resolved (stock_buy data) (stock_sell data) k = true).
    { apply resolved_iff. split; [assumption|]. fold (sells_of data k). now rewrite E. }
    congruence.
  - intros [HB HS]. split; [assumption|].
    destruct (resolved (stock_buy data) (stock_sell data) k) eqn:R; [|reflexivity].
    apply resolved_iff in R. tauto.
Qed.

(** *** The loop over the BTO rows *)

Lemma option_step_outcome OS p u r :
  option_step OS (p, u) r
  = match option_outcome OS r with
    | Raises => None
    | Skips => Some (p, u)
    | Writes k v => Some (Dict.set p k v, u)
    | Leaves k => Some (p, (u ++ [k])%list)
    end.
Proof.
  unfold option_step, option_outcome.
  destruct (Description r) as [d|]; [|reflexivity].
  destruct (extract_option_details d) as [[[[t e] o] k]|]; [|reflexivity].
  destruct (Str.nonempty t); [|reflexivity].
  now destruct (negb (is_empty (matching_sell OS t e))).
Qed.

Lemma for_each_app {S X} (body : S -> X -> option S) l1 l2 st :
  for_each body (l1 ++ l2)%list st
  = match for_each body l1 st with
    | Some st' => for_each body l2 st'
    | None => None
    end.
Proof.
  revert st. induction l1 as [|x l1 IH]; intros st; simpl; [reflexivity|].
  destruct (body st x); auto.
Qed.

Section Options.
Variable OS : list num_row.

(** the loop ends unless a row has no description *)
Lemma options_run l st :
  (forall r, In r l -> Description r <> None) -> exists st', for_each (option_step OS) l st = Some st'.
Proof.
  revert st. induction l as [|r l IH]; intros [p u] H; [now exists (p, u)|].
  cbn [for_each]. rewrite option_step_outcome.
  assert (Hr : Description r <> None) by (apply H; now left).
  assert (Hl : forall r', In r' l -> Description r' <> None) by (intros; apply H; now right).
  unfold option_outcome.
  destruct (Description r) as [d|]; [|congruence].
  destruct (extract_option_details d) as [[[[t e] o] k]|]; [|now apply IH].
  destruct (Str.nonempty t); [|now apply IH].
  destruct (negb (is_empty (matching_sell OS t e))); now apply IH.
Qed.

Lemma options_raise l st r :
  In r l -> Description r = None -> for_each (option_step OS) l st = None.
Proof.
  revert st. induction l as [|x l IH]; intros [p u] H E; [destruct H|].
  cbn [for_each]. rewrite option_step_outcome.
  destruct H as [-> | H].
  - unfold option_outcome. now rewrite E.
  - destruct (option_outcome OS x); auto; now apply IH.
Qed.

Lemma options_untouched l p u p' u' k :
  for_each (option_step OS) l (p, u) = Some (p', u') ->
  (forall r v, In r l -> option_outcome OS r <> Writes k v) ->
  Dict.get p' k = Dict.get p k.
Proof.
  revert p u. induction l as [|r l IH]; intros p u H N.
  - simpl in H. now inversion H.
  - cbn [for_each] in H. rewrite option_step_outcome in H.
    assert (Nl : forall r' v, In r' l -> option_outcome OS r' <> Writes k v)
      by (intros; apply N; now right).
    destruct (option_outcome OS r) as [| |k0 v0|k0] eqn:E; try discriminate.
    + eapply IH; eauto.
    + rewrite (IH _ _ H Nl). apply get_set_other.
      intros ->. apply (N r v0); [now left | assumption].
    + eapply IH; eauto.
Qed.

(** the value under a key is the one of the last row that wrote it *)
Lemma options_last l1 r l2 p u p' u' k v :
  for_each (option_step OS) (l1 ++ r :: l2)%list (p, u) = Some (p', u') ->
  option_outcome OS r = Writes k v ->
  (forall r' v', In r' l2 -> option_outcome OS r' <> Writes k v') ->
  Dict.get p' k = Some v.
Proof.
  intros H E N. rewrite for_each_app in H.
  destruct (for_each (option_step OS) l1 (p, u)) as [[p1 u1]|]; [|discriminate].
  cbn [for_each] in H. rewrite option_step_outcome, E in H.
  rewrite (options_untouched _ _ _ _ _ _ H N). apply get_set_same.
Qed.

Lemma options_keys l p u p' u' x :
  for_each (option_step OS) l (p, u) = Some (p', u') ->
  (In x (Dict.keys p')
   <-> In x (Dict.keys p) \/ exists r v, In r l /\ option_outcome OS r = Writes x v).
Proof.
  revert p u. induction l as [|r l IH]; intros p u H.
  - simpl in H. inversion H; subst. split; [auto|].
    intros [H1 | (r & v & [] & _)]. assumption.
  - cbn [for_each] in H. rewrite option_step_outcome in H.
    destruct (option_outcome OS r) as [| |k0 v0|k0] eqn:E; try discriminate;
      rewrite (IH _ _ H); clear IH H.
    + split; intros [H | (r' & v & Hr & Hv)]; auto.
      * right. exists r', v. split; [now right | assumption].
      * destruct Hr as [<- | Hr]; [congruence|]. right. eauto.
    + rewrite In_keys_set. split.
      * intros [[-> | H] | (r' & v & Hr & Hv)]; auto.
        -- right. exists r, v0. split; [now left | assumption].
        -- right. exists r', v. split; [now right | assumption].
      * intros [H | (r' & v & [<- | Hr] & Hv)]; auto.
        -- left. left. congruence.
        -- right. eauto.
    + split; intros [H | (r' & v & Hr & Hv)]; auto.
      * right. exists r', v. split; [now right | assumption].
      * destruct Hr as [<- | Hr]; [congruence|]. right. eauto.
Qed.

Lemma options_nodup l p u p' u' :
  for_each (option_step OS) l (p, u) = Some (p', u') -> NoDup (Dict.keys p) -> NoDup (Dict.keys p').
Proof.
  revert p u. induction l as [|r l IH]; intros p u H ND.
  - simpl in H. now inversion H; subst.
  - cbn [for_each] in H. rewrite option_step_outcome in H.
    destruct (option_outcome OS r) as [| |k0 v0|k0]; try discriminate;
      eapply IH; eauto using nodup_set.
Qed.

Lemma options_unresolved l p u p' u' x :
  for_each (option_step OS) l (p, u) = Some (p', u') ->
  (In x u' <-> In x u \/ exists r, In r l /\ option_outcome OS r = Leaves x).
Proof.
  revert p u. induction l as [|r l IH]; intros p u H.
  - simpl in H. inversion H; subst. split; [auto|].
    intros [H1 | (r & [] & _)]. assumption.
  - cbn [for_each] in H. rewrite option_step_outcome in H.
    destruct (option_outcome OS r) as [| |k0 v0|k0] eqn:E; try discriminate;
      rewrite (IH _ _ H); clear IH H.
    + split; intros [H | (r' & Hr & Hv)]; auto.
      * right. exists r'. split; [now right | assumption].
      * destruct Hr as [<- | Hr]; [congruence|]. right. eauto.
    + split; intros [H | (r' & Hr & Hv)]; auto.
      * right. exists r'. split; [now right | assumption].
      * destruct Hr as [<- | Hr]; [congruence|]. right. eauto.
    + rewrite in_app_iff. simpl. split.
      * intros [[H | [-> | []]] | (r' & Hr & Hv)]; auto.
        -- right. exists r. split; [now left | assumption].
        -- right. exists r'. split; [now right | assumption].
      * intros [H | (r' & [<- | Hr] & Hv)]; auto.
        -- left. right. left. congruence.
        -- right. eauto.
Qed.
End Options.

End WithPlatform.
End EngineFacts.

(** ** Cleaning the numeric columns *)

Module CleanFacts.
Import StrFacts ClassFacts ReFacts.

Lemma sub_from_skip r t s n :
  (String.length s <= n)%nat -> sub_from n r t s = EmptyString.
Proof.
  revert n. induction s as [|c s IH]; intros n H; [reflexivity|].
  simpl in H. destruct n as [|n]; [lia|].
  simpl. apply IH. lia.
Qed.

(** substituting nothing for one class of characters erases them *)
Lemma sub_cls_erase p s :
  Re.sub (Cls p) [] s = Str.filter (fun c => negb (p c)) s.
Proof.
  unfold Re.sub. induction s as [|c s IH]; [reflexivity|].
  cbn [sub_from Str.filter]. unfold match_at. cbn [rmatch].
  destruct (p c); cbn.
  - exact IH.
  - now rewrite IH.
Qed.

(** a text in which no match begins is left as it is *)
Lemma sub_no_start r t s :
  Str.all (fun c => negb (first r c)) s = true -> Re.sub r t s = s.
Proof.
  unfold Re.sub. induction s as [|c s IH]; [reflexivity|].
  intros H. simpl in H. apply andb_true_iff in H as [Hc Hs].
  apply negb_true_iff in Hc.
  cbn [sub_from]. unfold match_at. rewrite rmatch_first by assumption.
  now rewrite IH.
Qed.

Lemma strip_erases s :
  strip_currency (Some s) = Some (Str.filter not_dollar_comma s).
Proof. unfold strip_currency. simpl. now rewrite sub_cls_erase. Qed.

Lemma strip_fixed s :
  Str.all not_dollar_comma s = true -> strip_currency (Some s) = Some s.
Proof. intros H. now rewrite strip_erases, filter_id. Qed.

Lemma strip_idempotent cell : strip_currency (strip_currency cell) = strip_currency cell.
Proof.
  destruct cell as [s|]; [|reflexivity].
  rewrite strip_erases. apply strip_fixed, filter_all.
Qed.

(** a text that does not hold [old] is left as it is *)
Lemma replace_absent old new s :
  Str.contains old s = false -> Str.replace old new s = s.
Proof.
  unfold Str.replace. induction s as [|c s IH]; [reflexivity|].
  change (Str.contains old (String c s))
    with (if String.prefix old (String c s) then true else Str.contains old s).
  cbn [Str.replace_from].
  destruct (String.prefix old (String c s)); [discriminate|].
  intros H. now rewrite IH.
Qed.

(** the text of the pattern needs an opening parenthesis *)
Lemma pattern_absent s :
  Str.all not_lparen s = true -> Str.contains "\(([^)]+)\)" s = false.
Proof.
  induction s as [|c s IH]; intros H; [reflexivity|].
  simpl in H. apply andb_true_iff in H as [Hc Hs].
  change (Str.contains "\(([^)]+)\)" (String c s))
    with (if String.prefix "\(([^)]+)\)" (String c s)
          then true else Str.contains "\(([^)]+)\)" s).
  destruct (String.prefix "\(([^)]+)\)" (String c s)) eqn:E; [|now apply IH].
  exfalso. revert E. cbn [String.prefix].
  destruct (ascii_dec "\" c); [|discriminate].
  destruct s as [|d s]; [discriminate|].
  cbn [String.prefix].
  destruct (ascii_dec "(" d) as [<- | N]; [|discriminate].
  simpl in Hs. discriminate.
Qed.

(** whatever the default of [regex], a text without an opening
    parenthesis is left as it is *)
Lemma negate_fixed regex s :
  Str.all not_lparen s = true -> negate_parens regex (Some s) = Some s.
Proof.
  intros H. unfold negate_parens. destruct regex; simpl.
  - now rewrite sub_no_start.
  - now rewrite replace_absent by now apply pattern_absent.
Qed.

(** where the pattern is a regular expression, a parenthesised text
    becomes the text with a minus sign *)
Lemma negate_enclosed x :
  Str.nonempty x = true -> Str.all not_rparen x = true ->
  negate_parens true (Some ("(" ++ x ++ ")")) = Some ("-" ++ x).
Proof.
  intros Hn Hx. unfold negate_parens, Re.sub. simpl option_map. f_equal.
  change ("(" ++ x ++ ")") with (String "(" (x ++ ")")).
  cbn [sub_from]. unfold match_at, paren_re.
  rewrite seq_cls_step. change (is_char "(" "(") with true. cbv iota.
  rewrite seq_grp_plus_run; auto.
  - cbn. rewrite sub_from_skip.
    + now rewrite !app_nil_r.
    + rewrite !length_app. simpl. lia.
  - intros c Hc. cbn. unfold not_rparen in Hc. unfold is_char.
    now apply negb_true_iff in Hc.
Qed.

(** *** The text of a number *)

Lemma digits_chars s v n v' n' s' :
  digits s v n = (v', n', s') ->
  Str.all numeric_char s' = true -> Str.all numeric_char s = true.
Proof.
  revert v n. induction s as [|c s IH]; intros v n; simpl.
  - intros H. now inversion H.
  - destruct (is_digit c) eqn:Hc.
    + intros H Hs. unfold numeric_char at 1. rewrite Hc. simpl. eauto.
    + intros H. now inversion H.
Qed.

Lemma sign_chars s b s' :
  sign s = (b, s') ->
  Str.all numeric_char s' = true -> Str.all numeric_char s = true.
Proof.
  unfold sign. destruct s as [|c s]; [intros H; now inversion H|].
  destruct (Ascii.eqb c "-") eqn:E1; [|destruct (Ascii.eqb c "+") eqn:E2];
    intros H; inversion H; subst; auto; intros Hs; simpl; rewrite Hs;
    unfold numeric_char; rewrite ?E1, ?E2, ?orb_true_r; reflexivity.
Qed.

Lemma blanks_chars s :
  Str.all numeric_char (Str.drop_while is_blank s) = true ->
  Str.all numeric_char s = true.
Proof.
  induction s as [|c s IH]; simpl; [auto|].
  destruct (is_blank c) eqn:Hc; [|auto].
  intros H. unfold numeric_char at 1. rewrite Hc, orb_true_r. simpl. auto.
Qed.

Lemma exponent_chars s e s' :
  exponent s = Some (e, s') ->
  Str.all numeric_char s' = true -> Str.all numeric_char s = true.
Proof.
  unfold exponent. destruct s as [|c s]; [intros H; now inversion H|].
  destruct (Ascii.eqb c "e" || Ascii.eqb c "E") eqn:Hc.
  - destruct (sign s) as [neg s1] eqn:E1.
    destruct (digits s1 0%Z 0) as [[v n] s2] eqn:E2.
    destruct n; [discriminate|].
    intros H Hs. inversion H; subst.
    simpl. apply orb_true_iff in Hc.
    assert (Hn : numeric_char c = true).
    { unfold numeric_char. destruct Hc as [-> | ->]; now rewrite ?orb_true_r. }
    rewrite Hn. simpl.
    eapply sign_chars; eauto. eapply digits_chars; eauto.
  - intros H. now inversion H.
Qed.

(** a text that is a number is written with the characters of numbers *)
Lemma parse_chars s q : parse s = Some q -> Str.all numeric_char s = true.
Proof.
  unfold parse. intros H. apply blanks_chars.
  destruct (sign (Str.drop_while is_blank s)) as [neg s1] eqn:E1.
  destruct (digits s1 0%Z 0) as [[ip ni] s2] eqn:E2.
  eapply sign_chars; eauto. eapply digits_chars; eauto.
  assert (T : forall m nf s3,
             match (ni + nf)%nat with
             | O => None
             | S _ =>
                 match exponent s3 with
                 | Some (e, s4) =>
                     match Str.drop_while is_blank s4 with
                     | EmptyString => Some (Q2Qc (scale (if neg then (- m)%Z else m)
                                               (e - Z.of_nat nf)))
                     | String _ _ => None
                     end
                 | None => None
                 end
             end = Some q -> Str.all numeric_char s3 = true).
  { intros m nf s3 H3. destruct (ni + nf)%nat; [discriminate|].
    destruct (exponent s3) as [[e s4]|] eqn:E4; [|discriminate].
    destruct (Str.drop_while is_blank s4) eqn:E5; [|discriminate].
    eapply exponent_chars; eauto. apply blanks_chars. now rewrite E5. }
  destruct s2 as [|c s2'].
  - now apply T in H.
  - destruct (Ascii.eqb c ".") eqn:Ec.
    + destruct (digits s2' ip 0) as [[m nf] s3] eqn:E3.
      apply T in H. simpl.
      assert (Hn : numeric_char c = true)
        by (unfold numeric_char; now rewrite Ec, ?orb_true_r).
      rewrite Hn. simpl. eapply digits_chars; eauto.
    + now apply T in H.
Qed.

Lemma numeric_not_dollar_comma c : numeric_char c = true -> not_dollar_comma c = true.
Proof. by_cases c. Qed.

Lemma numeric_not_lparen c : numeric_char c = true -> not_lparen c = true.
Proof. by_cases c. Qed.

(** cleaning the text of a number leaves it as it is *)
Lemma number_fixed regex s q :
  parse s = Some q ->
  strip_currency (Some s) = Some s /\ negate_parens regex (Some s) = Some s.
Proof.
  intros H. apply parse_chars in H. split.
  - apply strip_fixed. apply (all_impl numeric_char); auto using numeric_not_dollar_comma.
  - apply negate_fixed. apply (all_impl numeric_char); auto using numeric_not_lparen.
Qed.

(** *** Rows outside the subsets *)

Lemma with_code_skip {P : Platform} code (l1 : list num_row) (r : num_row) l2 :
  str_contains code (Trans_Code r) = false ->
  with_code code (l1 ++ r :: l2)%list = with_code code (l1 ++ l2)%list.
Proof.
  intros H. unfold with_code.
  rewrite !filter_app. simpl. now rewrite H.
Qed.

End CleanFacts.

(** ** Equality of results, for the worked examples *)

Module ExampleFacts.

Lemma num_eqb_eq x y : Num.eqb x y = true -> x = y.
Proof.
  destruct x as [a|], y as [b|]; simpl; try discriminate; auto.
  intros H. f_equal. now apply Qc_eq_bool_correct.
Qed.

Lemma num_eqb_refl x : Num.eqb x x = true.
Proof.
  destruct x as [a|]; [|reflexivity]. simpl. unfold Qc_eq_bool.
  now destruct (Qc_eq_dec a a).
Qed.

Lemma perf_eqb_refl a : perf_eqb a a = true.
Proof. unfold perf_eqb. now rewrite !num_eqb_refl. Qed.

(** a record that compares unequal to [v] is not [v] *)
Lemma get_differs (d : @dict Exact) k v :
  match Dict.get d k with
  | Some w => perf_eqb w v
  | None => false
  end = false ->
  Dict.get d k <> Some v.
Proof.
  intros E H. rewrite H in E. now rewrite perf_eqb_refl in E.
Qed.

Lemma perf_eqb_eq a b : perf_eqb a b = true -> a = b.
Proof.
  destruct a as [q1 p1 r1], b as [q2 p2 r2]. unfold perf_eqb. simpl.
  rewrite !andb_true_iff. intros [[H1 H2] H3].
  apply num_eqb_eq in H1, H2, H3. now subst.
Qed.

Lemma dict_eqb_eq (p q : dict) :
  (List.length p =? List.length q)%nat
  && forallb (fun '((k, v), (k', v')) => String.eqb k k' && perf_eqb v v')
             (List.combine p q) = true ->
  p = q.
Proof.
  revert q. induction p as [|[k v] p IH]; intros [|[k' v'] q]; simpl; try discriminate; auto.
  rewrite !andb_true_iff. intros [H1 [[H2 H3] H4]].
  apply String.eqb_eq in H2. apply perf_eqb_eq in H3. subst.
  f_equal. apply IH. now rewrite H1, H4.
Qed.

Lemma list_eqb_eq (u w : list string) :
  (List.length u =? List.length w)%nat
  && forallb (fun '(x, y) => String.eqb x y) (List.combine u w) = true ->
  u = w.
Proof.
  revert w. induction u as [|x u IH]; intros [|y w]; simpl; try discriminate; auto.
  rewrite !andb_true_iff. intros [H1 [H2 H3]].
  apply String.eqb_eq in H2. subst. f_equal. apply IH. now rewrite H1, H3.
Qed.

Lemma result_eqb_eq a b : result_eqb a b = true -> a = b.
Proof.
  destruct a as [[p u]|], b as [[q w]|]; simpl; try discriminate; auto.
  rewrite <- !andb_assoc. intros H.
  apply andb_true_iff in H as [H1 H]. apply andb_true_iff in H as [H2 H].
  f_equal. f_equal.
  - apply dict_eqb_eq. now rewrite H1, H2.
  - now apply list_eqb_eq.
Qed.

End ExampleFacts.

(** ** Outcomes and keys of the BTO rows *)

Module OutcomeFacts.
Import StrFacts ParserFacts KeyFacts EngineFacts.
Section WithPlatform.
Context {P : Platform}.

Lemma outcome_parsed OS r desc t e o k :
  Description r = Some desc ->
  extract_option_details desc = Some (t, e, o, k) ->
  option_outcome OS r
  = if negb (is_empty (matching_sell OS t e))
    then Writes (option_key t e o k) (option_perf r (matching_sell OS t e))
    else Leaves (option_key t e o k).
Proof.
  intros Hd He. unfold option_outcome. rewrite Hd, He.
  apply extract_sound in He as (pre & w1 & w2 & w3 & post & _ & Ht & _).
  apply ticker_inv in Ht as [Ht _]. now rewrite Ht.
Qed.

Lemma outcome_writes OS r key v :
  option_outcome OS r = Writes key v ->
  exists desc t e o k,
    Description r = Some desc /\ extract_option_details desc = Some (t, e, o, k) /\
    key = option_key t e o k /\ matching_sell OS t e <> [] /\
    v = option_perf r (matching_sell OS t e).
Proof.
  unfold option_outcome.
  destruct (Description r) as [desc|]; [|discriminate].
  destruct (extract_option_details desc) as [[[[t e] o] k]|] eqn:E; [|discriminate].
  destruct (Str.nonempty t); [|discriminate].
  destruct (is_empty (matching_sell OS t e)) eqn:M; simpl; [discriminate|].
  intros H. inversion H; subst. apply is_empty_false in M.
  exists desc, t, e, o, k. auto.
Qed.

Lemma outcome_leaves OS r key :
  option_outcome OS r = Leaves key ->
  exists desc t e o k,
    Description r = Some desc /\ extract_option_details desc = Some (t, e, o, k) /\
    key = option_key t e o k /\ matching_sell OS t e = [].
Proof.
  unfold option_outcome.
  destruct (Description r) as [desc|]; [|discriminate].
  destruct (extract_option_details desc) as [[[[t e] o] k]|] eqn:E; [|discriminate].
  destruct (Str.nonempty t); [|discriminate].
  destruct (is_empty (matching_sell OS t e)) eqn:M; simpl; [|discriminate].
  intros H. inversion H; subst. apply is_empty_true in M.
  exists desc, t, e, o, k. auto.
Qed.

Lemma key_of_parsed r desc t e o k :
  Description r = Some desc ->
  extract_option_details desc = Some (t, e, o, k) ->
  key_of r = Some (option_key t e o k).
Proof. intros Hd He. unfold key_of. now rewrite Hd, He. Qed.

(** descriptions that give one key give one identity *)
Lemma same_key_same_identity d t e o k d' t' e' o' k' :
  extract_option_details d = Some (t, e, o, k) ->
  extract_option_details d' = Some (t', e', o', k') ->
  option_key t e o k = option_key t' e' o' k' ->
  (t, e, o, k) = (t', e', o', k').
Proof.
  intros H H' E.
  apply extract_sound in H as (? & ? & ? & ? & ? & _ & Ht & _ & He & _ & Ho & _).
  apply extract_sound in H' as (? & ? & ? & ? & ? & _ & Ht' & _ & He' & _ & Ho' & _).
  destruct (option_key_inj _ _ _ _ _ _ _ _ Ht He Ho Ht' He' Ho' E) as (-> & -> & -> & ->).
  reflexivity.
Qed.

Lemma prefix_iff a s : String.prefix a s = true <-> exists b, s = a ++ b.
Proof.
  revert s. induction a as [|x a IH]; intros s.
  - split; [intros _; now exists s | intros _; now destruct s].
  - destruct s as [|y s]; simpl.
    + split; [discriminate | intros (b & H); discriminate].
    + destruct (ascii_dec x y) as [-> | N].
      * rewrite IH. split; intros (b & H); exists b; [now subst | now inversion H].
      * split; [discriminate | intros (b & H); inversion H; congruence].
Qed.

(** [Str.contains] is the presence as a substring *)
Lemma contains_iff sub s : Str.contains sub s = true <-> exists a b, s = a ++ sub ++ b.
Proof.
  split.
  - induction s as [|c s IH].
    + change (Str.contains sub EmptyString)
        with (if String.prefix sub EmptyString then true else false).
      destruct (String.prefix sub EmptyString) eqn:E; [|discriminate].
      intros _. apply prefix_iff in E as (b & E). now exists EmptyString, b.
    + change (Str.contains sub (String c s))
        with (if String.prefix sub (String c s) then true else Str.contains sub s).
      destruct (String.prefix sub (String c s)) eqn:E.
      * intros _. apply prefix_iff in E as (b & E). now exists EmptyString, b.
      * intros H. apply IH in H as (a & b & ->). now exists (String c a), b.
  - intros (a & b & ->). apply contains_app.
Qed.

(** a string without a blank is the key of no option *)
Lemma no_blank_not_written OS r ticker v :
  Str.all not_blank ticker = true -> option_outcome OS r <> Writes ticker v.
Proof.
  intros Hb O. apply outcome_writes in O as (d & t & e & o & k & _ & _ & E & _).
  now apply (no_blank_not_key ticker t e o k).
Qed.

Lemma key_of_is_key r key :
  key_of r = Some key -> exists t e o k, key = option_key t e o k.
Proof.
  unfold key_of. destruct (Description r) as [d|]; [|discriminate].
  destruct (extract_option_details d) as [[[[t e] o] k]|]; [|discriminate].
  intros H. inversion H. now exists t, e, o, k.
Qed.

(** when the instruments of the Buy rows hold no blank, none of them is
    the composite key of a BTO row *)
Lemma no_blank_no_clash data :
  (forall r i, In r (stock_buy data) -> Instrument r = Some i ->
               Str.all not_blank i = true) ->
  forall r key, In r (option_buy data) -> key_of r = Some key ->
                buys_of data key = [].
Proof.
  intros Hb r key _ Hk. apply key_of_is_key in Hk as (t & e & o & k & ->).
  destruct (buys_of data (option_key t e o k)) as [|x l] eqn:E; [reflexivity|].
  assert (Hx : In x (buys_of data (option_key t e o k))) by (rewrite E; now left).
  unfold buys_of in Hx. apply filter_In in Hx as [Hx Hi].
  apply instrument_is_true in Hi.
  now destruct (no_blank_not_key _ t e o k (Hb x _ Hx Hi)).
Qed.

(** [analyze_performance] returns when the [.str] accessor takes the
    two columns and every BTO row has a description; a BTO row without
    one makes it raise *)
Lemma analyze_returns data :
  accepted data = true ->
  (forall r, In r (option_buy data) -> Description r <> None) ->
  exists performance unresolved,
    analyze_performance data = Some (performance, unresolved).
Proof.
  intros A H. rewrite analyze_unfold, A.
  destruct (options_run (option_sell data) (option_buy data) (after_stocks data) H)
    as [[p u] E].
  now exists p, u.
Qed.

Lemma analyze_raises data r :
  In r (option_buy data) -> Description r = None ->
  analyze_performance data = None.
Proof.
  intros H E. rewrite analyze_unfold.
  destruct (accepted data); [|reflexivity].
  now apply (options_raise _ _ _ r).
Qed.

End WithPlatform.
End OutcomeFacts.

(** ** Tables in which the loops read the same *)

Module ReadingFacts.
Import StrFacts DictFacts EngineFacts CleanFacts OutcomeFacts.
Section WithPlatform.
Context {P : Platform}.

Lemma analyze_loops data :
  analyze_performance data = if accepted data then loops (clean data) else None.
Proof. apply analyze_unfold. Qed.

Lemma same_reading_refl r : same_reading r r.
Proof. unfold same_reading. tauto. Qed.

Lemma same_reading_all l : Forall2 same_reading l l.
Proof. induction l; constructor; auto using same_reading_refl. Qed.

Lemma filter_related (p : num_row -> bool) l l' :
  (forall r r', same_reading r r' -> p r = p r') ->
  Forall2 same_reading l l' ->
  Forall2 same_reading (List.filter p l) (List.filter p l').
Proof.
  intros Hp H. induction H as [|r r' l l' Hr Hl IH]; [constructor|].
  simpl. rewrite <- (Hp r r' Hr). destruct (p r); [constructor|]; assumption.
Qed.

Lemma with_code_related code l l' :
  Forall2 same_reading l l' ->
  Forall2 same_reading (with_code code l) (with_code code l').
Proof.
  apply filter_related. intros r r' (_ & Hc & _). now rewrite Hc.
Qed.

Lemma instrument_is_related t r r' :
  same_reading r r' -> instrument_is t r = instrument_is t r'.
Proof. intros (Hi & _). unfold instrument_is. now rewrite Hi. Qed.

Lemma instruments_related l l' :
  Forall2 same_reading l l' -> map Instrument l = map Instrument l'.
Proof.
  intros H. induction H as [|r r' l l' (Hi & _) Hl IH]; [reflexivity|].
  simpl. now rewrite Hi, IH.
Qed.

Lemma values_related l l' :
  Forall2 same_reading l l' ->
  Series_sum (map value l) = Series_sum (map value l').
Proof.
  intros H. unfold Series_sum. f_equal.
  induction H as [|r r' l l' (_ & _ & _ & _ & Hv & _) Hl IH]; [reflexivity|].
  simpl. now rewrite Hv, IH.
Qed.

Lemma quantities_related l l' :
  Forall2 same_reading l l' ->
  Series_sum (map Quantity l) = Series_sum (map Quantity l').
Proof.
  intros H. unfold Series_sum. f_equal.
  induction H as [|r r' l l' (_ & _ & _ & Hq & _) Hl IH]; [reflexivity|].
  simpl. now rewrite Hq, IH.
Qed.

Lemma is_empty_related {X Y} (R : X -> Y -> Prop) l l' :
  Forall2 R l l' -> is_empty l = is_empty l'.
Proof. now destruct 1. Qed.

Lemma stock_step_related B B' S S' st t :
  Forall2 same_reading B B' -> Forall2 same_reading S S' ->
  stock_step B S st t = stock_step B' S' st t.
Proof.
  intros HB HS. destruct st as [p u]. unfold stock_step.
  pose proof (filter_related (instrument_is t) B B'
                (instrument_is_related t) HB) as FB.
  pose proof (filter_related (instrument_is t) S S'
                (instrument_is_related t) HS) as FS.
  rewrite (is_empty_related _ _ _ FB), (is_empty_related _ _ _ FS).
  unfold stock_perf.
  now rewrite (values_related _ _ FB), (values_related _ _ FS),
    (quantities_related _ _ FB).
Qed.

Lemma stocks_related B B' S S' l st :
  Forall2 same_reading B B' -> Forall2 same_reading S S' ->
  fold_left (stock_step B S) l st = fold_left (stock_step B' S') l st.
Proof.
  intros HB HS. revert st. induction l as [|t l IH]; intros st; [reflexivity|].
  simpl. now rewrite (stock_step_related B B' S S' st t HB HS), IH.
Qed.

Lemma matching_sell_related OS OS' t e :
  Forall2 same_reading OS OS' ->
  Forall2 same_reading (matching_sell OS t e) (matching_sell OS' t e).
Proof.
  apply filter_related. intros r r' H.
  rewrite (instrument_is_related t r r' H).
  destruct H as (_ & _ & Hd & _). now rewrite Hd.
Qed.

Lemma option_step_related OS OS' st r r' :
  Forall2 same_reading OS OS' -> same_reading r r' ->
  str_contains "BTO" (Trans_Code r) = true ->
  option_step OS st r = option_step OS' st r'.
Proof.
  intros HO (_ & _ & Hd & _ & _ & HB) B. destruct (HB B) as [Hq Hp].
  destruct st as [p u]. unfold option_step. rewrite <- Hd.
  destruct (Description r) as [d|]; [|reflexivity].
  destruct (extract_option_details d) as [[[[t e] o] k]|]; [|reflexivity].
  destruct (Str.nonempty t); [|reflexivity].
  pose proof (matching_sell_related OS OS' t e HO) as M.
  rewrite (is_empty_related _ _ _ M). unfold option_perf.
  now rewrite (values_related _ _ M), Hq, Hp.
Qed.

Lemma options_related OS OS' l l' st :
  Forall2 same_reading OS OS' -> Forall2 same_reading l l' ->
  for_each (option_step OS) (with_code "BTO" l) st
  = for_each (option_step OS') (with_code "BTO" l') st.
Proof.
  intros HO H. revert st.
  induction H as [|r r' l l' Hr Hl IH]; intros st; [reflexivity|].
  unfold with_code in *. simpl.
  assert (C : Trans_Code r = Trans_Code r') by apply Hr. rewrite <- C.
  destruct (str_contains "BTO" (Trans_Code r)) eqn:B; [|apply IH].
  cbn [for_each]. rewrite (option_step_related OS OS' st r r' HO Hr B).
  destruct (option_step OS' st r'); [apply IH | reflexivity].
Qed.

(** the loops give the same on tables whose rows read the same *)
Lemma loops_related l l' : Forall2 same_reading l l' -> loops l = loops l'.
Proof.
  intros H. unfold loops.
  rewrite (instruments_related _ _ (with_code_related "Buy" l l' H)).
  rewrite (stocks_related _ _ _ _ _ _ (with_code_related "Buy" l l' H)
             (with_code_related "Sell" l l' H)).
  apply options_related; [now apply with_code_related | assumption].
Qed.

(** a row of none of the four subsets counts for nothing in the loops *)
Lemma loops_skip l1 (r : num_row) l2 :
  str_contains "Buy" (Trans_Code r) = false ->
  str_contains "Sell" (Trans_Code r) = false ->
  str_contains "BTO" (Trans_Code r) = false ->
  str_contains "STO" (Trans_Code r) = false ->
  loops (l1 ++ r :: l2)%list = loops (l1 ++ l2)%list.
Proof.
  intros HB HS HO HC. unfold loops.
  now rewrite !(with_code_skip _ l1 r l2) by assumption.
Qed.

(** *** The table after cleaning, row by row *)

Lemma set_numbers_app d1 d2 q1 q2 p1 p2 a1 a2 :
  List.length q1 = List.length d1 -> List.length p1 = List.length d1 ->
  List.length a1 = List.length d1 ->
  set_numbers (d1 ++ d2) (q1 ++ q2) (p1 ++ p2) (a1 ++ a2)
  = (set_numbers d1 q1 p1 a1 ++ set_numbers d2 q2 p2 a2)%list.
Proof.
  revert q1 p1 a1. induction d1 as [|r d1 IH]; intros q1 p1 a1 Hq Hp Ha.
  - destruct q1, p1, a1; try discriminate. reflexivity.
  - destruct q1 as [|q q1], p1 as [|p p1], a1 as [|a a1]; try discriminate.
    simpl in *. f_equal. apply IH; congruence.
Qed.

(** a column as long as a table is cut where the table is *)
Lemma cut_column {X Y} (l1 l2 : list X) (c : list Y) :
  List.length c = List.length (l1 ++ l2)%list ->
  exists c1 c2, c = (c1 ++ c2)%list
                /\ List.length c1 = List.length l1
                /\ List.length c2 = List.length l2.
Proof.
  intros H. exists (firstn (List.length l1) c), (skipn (List.length l1) c).
  rewrite List.length_app in H.
  split; [now rewrite firstn_skipn|]. split.
  - rewrite length_firstn. lia.
  - rewrite length_skipn. lia.
Qed.

Lemma without_app {X} (l1 : list X) x l2 :
  without (List.length l1) (l1 ++ x :: l2)%list = (l1 ++ l2)%list.
Proof.
  unfold without. induction l1 as [|y l1 IH]; [reflexivity|].
  simpl. f_equal. exact IH.
Qed.

Lemma set_numbers_related d d' q p a a' :
  Forall2 same_text d d' ->
  List.length q = List.length d -> List.length p = List.length d ->
  List.length a = List.length d -> List.length a' = List.length d ->
  Forall2 same_reading (set_numbers d q p a) (set_numbers d' q p a').
Proof.
  intros H. revert q p a a'.
  induction H as [|r r' d d' (Hi & Hc & Hd) Hl IH]; intros q p a a' Hq Hp Ha Ha'.
  - constructor.
  - destruct q as [|x q], p as [|y p], a as [|z a], a' as [|z' a'];
      try discriminate.
    simpl in *. constructor; [|apply IH; congruence].
    unfold same_reading, numbered, value. simpl. tauto.
Qed.

Lemma same_text_all d : Forall2 same_text d d.
Proof. induction d; constructor; unfold same_text; auto. Qed.

(** a column of numbers as long as the table it was read from, cut at
    a row *)
Lemma cut_at_row {X} (before : list raw_row) (r : raw_row) after (c : list X) :
  List.length c = List.length (before ++ r :: after)%list ->
  exists cb x ca,
    c = (cb ++ x :: ca)%list
    /\ List.length cb = List.length before
    /\ List.length ca = List.length after.
Proof.
  intros H. destruct (cut_column before (r :: after) c H) as (cb & c2 & -> & Hb & H2).
  destruct c2 as [|x ca]; [discriminate|].
  exists cb, x, ca. simpl in H2. repeat split; auto.
Qed.

(** the table cleaned, cut at a row *)
Lemma clean_at before r after :
  exists cb q p a ca,
    clean (before ++ r :: after)%list = (cb ++ numbered r q p a :: ca)%list
    /\ forall r',
         quantity_text (before ++ r' :: after)%list
         = quantity_text (before ++ r :: after)%list ->
         price_text (before ++ r' :: after)%list
         = price_text (before ++ r :: after)%list ->
         amount_text (before ++ r' :: after)%list
         = amount_text (before ++ r :: after)%list ->
         clean (before ++ r' :: after)%list = (cb ++ numbered r' q p a :: ca)%list.
Proof.
  unfold clean.
  destruct (cut_at_row before r after (to_numeric (quantity_text (before ++ r :: after)%list)))
    as (qb & q & qa & EQ & Lqb & Lqa);
    [unfold quantity_text; now rewrite to_numeric_length, length_map|].
  destruct (cut_at_row before r after (to_numeric (price_text (before ++ r :: after)%list)))
    as (pb & p & pa & EP & Lpb & Lpa);
    [unfold price_text; now rewrite to_numeric_length, !length_map|].
  destruct (cut_at_row before r after (to_numeric (amount_text (before ++ r :: after)%list)))
    as (ab & a & aa & EA & Lab & Laa);
    [unfold amount_text, amount_stripped; now rewrite to_numeric_length, !length_map|].
  exists (set_numbers before qb pb ab), q, p, a, (set_numbers after qa pa aa).
  split.
  - rewrite EQ, EP, EA.
    now rewrite (set_numbers_app before (r :: after) qb (q :: qa) pb (p :: pa)
                   ab (a :: aa)).
  - intros r' HQ HP HA. rewrite HQ, HP, HA, EQ, EP, EA.
    now rewrite (set_numbers_app before (r' :: after) qb (q :: qa) pb (p :: pa)
                   ab (a :: aa)).
Qed.

(** the table cleaned with a row, cut at the row, and the table cleaned
    without it *)
Lemma clean_cut before r after :
  quantities (before ++ after)%list
  = without (List.length before) (quantities (before ++ r :: after)%list) ->
  prices (before ++ after)%list
  = without (List.length before) (prices (before ++ r :: after)%list) ->
  exists cb q p a ca,
    clean (before ++ r :: after)%list = (cb ++ numbered r q p a :: ca)%list
    /\ Forall2 same_reading (cb ++ ca)%list (clean (before ++ after)%list).
Proof.
  unfold quantities, prices, clean. intros HQ HP.
  destruct (cut_at_row before r after (to_numeric (quantity_text (before ++ r :: after)%list)))
    as (qb & q & qa & EQ & Lqb & Lqa);
    [unfold quantity_text; now rewrite to_numeric_length, length_map|].
  destruct (cut_at_row before r after (to_numeric (price_text (before ++ r :: after)%list)))
    as (pb & p & pa & EP & Lpb & Lpa);
    [unfold price_text; now rewrite to_numeric_length, !length_map|].
  destruct (cut_at_row before r after (to_numeric (amount_text (before ++ r :: after)%list)))
    as (ab & a & aa & EA & Lab & Laa);
    [unfold amount_text, amount_stripped; now rewrite to_numeric_length, !length_map|].
  destruct (cut_column before after (to_numeric (amount_text (before ++ after)%list)))
    as (ab' & aa' & EA' & Lab' & Laa');
    [unfold amount_text, amount_stripped; now rewrite to_numeric_length, !length_map|].
  rewrite EQ, EP in *. rewrite EA, EA'.
  rewrite <- Lqb in HQ. rewrite without_app in HQ.
  rewrite <- Lpb in HP. rewrite without_app in HP.
  rewrite HQ, HP.
  exists (set_numbers before qb pb ab), q, p, a, (set_numbers after qa pa aa).
  split.
  - now rewrite (set_numbers_app before (r :: after) qb (q :: qa) pb (p :: pa)
                   ab (a :: aa)).
  - rewrite (set_numbers_app before after qb qa pb pa ab' aa') by assumption.
    apply Forall2_app; apply set_numbers_related;
      auto using same_text_all.
Qed.

End WithPlatform.
End ReadingFacts.

(** * The engine on the tables of the examples *)

Import StrFacts ClassFacts ReFacts ParserFacts KeyFacts.
Import DictFacts EngineFacts CleanFacts ExampleFacts OutcomeFacts ReadingFacts.

Ltac by_evaluation := apply result_eqb_eq; vm_compute; reflexivity.

Example parse_pltr :
  extract_option_details "PLTR 01/19/24 C 25" = Some ("PLTR", "01/19/24", "C", "25").
Proof. reflexivity. Qed.

Example parse_tabs :
  extract_option_details "note: AAPL   12/15/23  P  150 shares"
  = Some ("AAPL", "12/15/23", "P", "150").
Proof. reflexivity. Qed.

Example parse_random : extract_option_details "random text" = None.
Proof. reflexivity. Qed.

Example to_numeric_plain : Num.eqb (parse "1234.56") (of_Q 1234.56) = true.
Proof. vm_compute. reflexivity. Qed.

Example to_numeric_exponent : Num.eqb (parse " -1e-5 ") (of_Q (-0.00001)) = true.
Proof. vm_compute. reflexivity. Qed.

Example to_numeric_text : parse "(500.00)" = NaN /\ parse "abc" = NaN /\ parse "1,5" = NaN.
Proof. repeat split. Qed.

Lemma xyz_result :
  analyze_performance xyz_table = Some ([("XYZ", record 10 200 20)], []).
Proof. by_evaluation. Qed.

Lemma pltr_result :
  analyze_performance pltr_table
  = Some ([("PLTR 01/19/24 C 25", record 1 1.5 60)], []).
Proof. by_evaluation. Qed.

Lemma clash_result :
  analyze_performance clash_table
  = Some ([("A 01/19/24 C 25", record 1 1.5 60)], []).
Proof. by_evaluation. Qed.

Lemma held_clash_result :
  analyze_performance held_clash_table
  = Some ([("A 01/19/24 C 25", record 1 1.5 60)], ["A 01/19/24 C 25"]).
Proof. by_evaluation. Qed.

Lemma open_clash_result :
  analyze_performance open_clash_table
  = Some ([("A 01/19/24 C 25", record 10 200 20)], ["A 01/19/24 C 25"]).
Proof. by_evaluation. Qed.

Lemma reopen_result :
  analyze_performance reopen_table
  = Some ([("PLTR 01/19/24 C 25", record 3 1 (100 # 3))], []).
Proof. by_evaluation. Qed.

Lemma cross_result :
  analyze_performance cross_table
  = Some ([("PLTR 01/19/24 C 25", record 1 1.5 60)], []).
Proof. by_evaluation. Qed.

Lemma bad_price_result :
  analyze_performance bad_price_table = Some ([("XYZ", record 15 200 20)], []).
Proof. by_evaluation. Qed.

(** * The claims *)

(** ** C1: stock reconciliation *)

(** C1, counterexample.  In [clash_table] the ticker ["A 01/19/24 C 25"]
    has a Buy row and a Sell row, and the mapping returned does not hold
    the stock record under it: the record of the option with the same
    key has replaced it. *)
Lemma stock_record_overwritten :
  buys_of clash_table "A 01/19/24 C 25" <> [] /\
  sells_of clash_table "A 01/19/24 C 25" <> [] /\
  exists performance unresolved,
    analyze_performance clash_table = Some (performance, unresolved) /\
    Dict.get performance "A 01/19/24 C 25"
    <> Some (stock_record (buys_of clash_table "A 01/19/24 C 25")
                          (sells_of clash_table "A 01/19/24 C 25")).
Proof.
  split; [vm_compute; discriminate|]. split; [vm_compute; discriminate|].
  eexists. eexists. split; [exact clash_result|].
  apply get_differs. vm_compute. reflexivity.
Qed.

(** C1, amended.  For every ticker that has Buy rows and Sell rows, and
    that is not the composite key written for a BTO row with a matching
    STO row, the mapping returned holds under the ticker: the sum of the
    quantities bought; the sum of quantity times price over the Sell
    rows minus that sum over the Buy rows; and that difference divided
    by the cost, times 100, or 0 when the cost is 0.  Ten shares bought
    at 100 and sold at 120 give 10, 200 and 20. *)
Theorem stock_reconciliation :
  (forall (P : Platform) data performance unresolved ticker,
     analyze_performance data = Some (performance, unresolved) ->
     buys_of data ticker <> [] ->
     sells_of data ticker <> [] ->
     (forall r v, In r (option_buy data) ->
                  option_outcome (option_sell data) r <> Writes ticker v) ->
     Dict.get performance ticker
     = Some (stock_record (buys_of data ticker) (sells_of data ticker)))
  /\ (exists performance unresolved,
        analyze_performance xyz_table = Some (performance, unresolved) /\
        Dict.get performance "XYZ" = Some (record 10 200 20)).
Proof.
  split.
  - intros P data performance unresolved ticker H HB HS HN.
    apply analyze_some in H.
    destruct (after_stocks data) as [p u] eqn:E.
    rewrite (options_untouched _ _ _ _ _ _ _ H HN).
    change p with (fst (p, u)). rewrite <- E.
    now apply stocks_get.
  - eexists. eexists. split; [exact xyz_result | reflexivity].
Qed.

Lemma stock_reconciliation_witness :
  Dict.get [("XYZ", record 10 200 20)] "XYZ"
  = Some (stock_record (buys_of xyz_table "XYZ") (sells_of xyz_table "XYZ")).
Proof.
  apply (proj1 stock_reconciliation Exact xyz_table _ []).
  - apply result_eqb_eq. vm_compute. reflexivity.
  - vm_compute. discriminate.
  - vm_compute. discriminate.
  - intros r v H. vm_compute in H. destruct H.
Defined.

(** ** C6: a stock bought and not sold *)

Lemma get_absent {P : Platform} (d : dict) k :
  ~ In k (Dict.keys d) -> Dict.get d k = None.
Proof.
  intros N. pose proof (mem_get d k) as M.
  destruct (Dict.get d k); [|reflexivity].
  apply mem_In in M. contradiction.
Qed.

(** C6, counterexample.  In [held_clash_table] the ticker
    ["A 01/19/24 C 25"] has a Buy row and no Sell row; it is listed as
    unresolved, and the mapping returned holds a record under it all the
    same, the one of the option with that key. *)
Lemma held_stock_has_record :
  buys_of held_clash_table "A 01/19/24 C 25" <> [] /\
  sells_of held_clash_table "A 01/19/24 C 25" = [] /\
  exists performance unresolved,
    analyze_performance held_clash_table = Some (performance, unresolved) /\
    In "A 01/19/24 C 25" unresolved /\
    Dict.mem performance "A 01/19/24 C 25" = true.
Proof.
  split; [vm_compute; discriminate|]. split; [reflexivity|].
  eexists. eexists. split; [exact held_clash_result|].
  split; [now left | reflexivity].
Qed.

(** C6, amended.  A ticker with Buy rows and no Sell row is listed in
    [unresolved] under its own name, the loop over the tickers writes no
    record for it, and the mapping returned holds none under it unless a
    BTO row with a matching STO row has that very string as its
    composite key. *)
Theorem unsold_stock_unresolved {P : Platform} data performance unresolved ticker :
  analyze_performance data = Some (performance, unresolved) ->
  buys_of data ticker <> [] ->
  sells_of data ticker = [] ->
  In ticker unresolved
  /\ Dict.get (fst (after_stocks data)) ticker = None
  /\ ((forall r v, In r (option_buy data) ->
                   option_outcome (option_sell data) r <> Writes ticker v) ->
      Dict.get performance ticker = None).
Proof.
  intros H HB HS. apply analyze_some in H.
  assert (N : Dict.get (fst (after_stocks data)) ticker = None).
  { apply get_absent. rewrite stocks_keys. intros [_ C]. contradiction. }
  destruct (after_stocks data) as [p u] eqn:E.
  split; [|split].
  - apply (options_unresolved _ _ _ _ _ _ ticker H). left.
    change u with (snd (p, u)). rewrite <- E. now apply stocks_unresolved.
  - exact N.
  - intros HN. now rewrite (options_untouched _ _ _ _ _ _ _ H HN).
Qed.

Lemma unsold_stock_unresolved_witness :
  In "XYZ" ["XYZ"]
  /\ Dict.get (fst (after_stocks [trade "XYZ" "Buy" "10" "100" "XYZ Corp"])) "XYZ" = None
  /\ Dict.get [] "XYZ" = None.
Proof.
  destruct (unsold_stock_unresolved (P := Exact)
              [trade "XYZ" "Buy" "10" "100" "XYZ Corp"] [] ["XYZ"] "XYZ")
    as (A & B & C).
  - by_evaluation.
  - vm_compute. discriminate.
  - vm_compute. reflexivity.
  - split; [exact A|]. split; [exact B|].
    apply C. intros r v H. vm_compute in H. destruct H.
Defined.

(** ** C4: a key in one output only *)

(** C4, counterexample.  In [open_clash_table] the string
    ["A 01/19/24 C 25"] is a key of the mapping returned (the stock of
    that name was bought and sold) and an entry of the list returned
    (the option of that key was opened and not sold). *)
Lemma key_in_both_outputs :
  exists performance unresolved,
    analyze_performance open_clash_table = Some (performance, unresolved) /\
    In "A 01/19/24 C 25" (Dict.keys performance) /\
    In "A 01/19/24 C 25" unresolved.
Proof.
  eexists. eexists. split; [exact open_clash_result|].
  split; now left.
Qed.

(** C4, amended.  When no BTO row has a composite key that is also the
    instrument of a Buy row, no string is both a key of the mapping
    returned and an entry of the list returned. *)
Theorem outputs_exclusive {P : Platform} data performance unresolved :
  analyze_performance data = Some (performance, unresolved) ->
  (forall r key, In r (option_buy data) -> key_of r = Some key ->
                 buys_of data key = []) ->
  forall key, In key unresolved -> ~ In key (Dict.keys performance).
Proof.
  intros H HK key HU HP. apply analyze_some in H.
  destruct (after_stocks data) as [p u] eqn:E.
  apply (options_unresolved _ _ _ _ _ _ key H) in HU.
  apply (options_keys _ _ _ _ _ _ key H) in HP.
  assert (Ep : p = fst (after_stocks data)) by now rewrite E.
  assert (Eu : u = snd (after_stocks data)) by now rewrite E.
  destruct HU as [HU | (r & Hr & Or)], HP as [HP | (r' & v & Hr' & Or')].
  - rewrite Eu in HU. rewrite Ep in HP.
    apply stocks_unresolved in HU. apply stocks_keys in HP.
    destruct HU as [_ HU], HP as [_ HP]. contradiction.
  - rewrite Eu in HU. apply stocks_unresolved in HU as [HB _].
    apply outcome_writes in Or' as (d & t & e & o & k & Hd & He & -> & _).
    apply HB. apply (HK r'); [assumption | now apply (key_of_parsed r' d t e o k)].
  - rewrite Ep in HP. apply stocks_keys in HP as [HB _].
    apply outcome_leaves in Or as (d & t & e & o & k & Hd & He & -> & _).
    apply HB. apply (HK r); [assumption | now apply (key_of_parsed r d t e o k)].
  - apply outcome_leaves in Or as (d & t & e & o & k & Hd & He & -> & M).
    apply outcome_writes in Or' as (d' & t' & e' & o' & k' & Hd' & He' & EK & M' & _).
    pose proof (same_key_same_identity _ _ _ _ _ _ _ _ _ _ He He' EK) as I.
    inversion I; subst. contradiction.
Qed.

Lemma mixed_result :
  analyze_performance mixed_table
  = Some ([("PLTR 01/19/24 C 25", record 1 1.5 60)], ["XYZ"]).
Proof. by_evaluation. Qed.

Lemma outputs_exclusive_witness :
  ~ In "XYZ" (Dict.keys [("PLTR 01/19/24 C 25", record 1 1.5 60)]).
Proof.
  apply (outputs_exclusive (P := Exact) mixed_table _ ["XYZ"]).
  - apply result_eqb_eq. vm_compute. reflexivity.
  - intros r key H. vm_compute in H. destruct H as [<- | []].
    intros E. vm_compute in E. inversion E. vm_compute. reflexivity.
  - simpl. left. reflexivity.
Defined.

(** ** C3: the same option opened more than once *)

(** C3.  Let a BTO row parse to an option identity that has a matching
    STO row, and let no later BTO row parse to that identity.  Then the
    mapping returned holds one entry under the composite key, and its
    values are those of that row alone: its quantity, the proceeds of
    the matching rows minus its cost, and the return on its cost.
    Earlier rows of the same identity leave no trace; in
    [reopen_table] the record is the one of the second opening. *)
Theorem last_write_wins :
  (forall (P : Platform) data performance unresolved before r after desc t e o k,
     analyze_performance data = Some (performance, unresolved) ->
     option_buy data = (before ++ r :: after)%list ->
     Description r = Some desc ->
     extract_option_details desc = Some (t, e, o, k) ->
     matching_sell (option_sell data) t e <> [] ->
     (forall r' desc', In r' after -> Description r' = Some desc' ->
                       extract_option_details desc' <> Some (t, e, o, k)) ->
     Dict.get performance (option_key t e o k)
     = Some (option_record r (matching_sell (option_sell data) t e))
     /\ Dict.entries performance (option_key t e o k) = 1%nat)
  /\ (exists performance unresolved,
        analyze_performance reopen_table = Some (performance, unresolved) /\
        Dict.get performance "PLTR 01/19/24 C 25" = Some (record 3 1 (100 # 3)) /\
        Dict.entries performance "PLTR 01/19/24 C 25" = 1%nat).
Proof.
  split.
  - intros P data performance unresolved before r after desc t e o k
           H HS Hd He HM HL.
    apply analyze_some in H. rewrite HS in H.
    destruct (after_stocks data) as [p u] eqn:E.
    assert (W : option_outcome (option_sell data) r
                = Writes (option_key t e o k)
                         (option_record r (matching_sell (option_sell data) t e))).
    { rewrite (outcome_parsed _ _ _ _ _ _ _ Hd He).
      apply is_empty_false in HM. now rewrite HM. }
    split.
    + apply (options_last _ _ _ _ _ _ _ _ _ _ H W).
      intros r' v' Hr' O.
      apply outcome_writes in O as (d' & t' & e' & o' & k' & Hd' & He' & EK & _).
      apply (HL r' d' Hr' Hd'). rewrite He'.
      now rewrite (same_key_same_identity _ _ _ _ _ _ _ _ _ _ He He' EK).
    + apply entries_present.
      * apply (options_nodup _ _ _ _ _ _ H).
        change p with (fst (p, u)). rewrite <- E. apply stocks_nodup.
      * apply (options_keys _ _ _ _ _ _ (option_key t e o k) H). right.
        exists r, (option_record r (matching_sell (option_sell data) t e)).
        split; [apply in_elt | exact W].
  - eexists. eexists. split; [exact reopen_result|]. split; reflexivity.
Qed.

Lemma last_write_wins_witness :
  Dict.get [("PLTR 01/19/24 C 25", record 3 1 (100 # 3))] "PLTR 01/19/24 C 25"
  = Some (option_record
            (clean_row (trade "PLTR" "BTO" "3" "$1.00" "PLTR 01/19/24 C 25"))
            (matching_sell (option_sell reopen_table) "PLTR" "01/19/24"))
  /\ Dict.entries [("PLTR 01/19/24 C 25", record 3 1 (100 # 3))]
                  "PLTR 01/19/24 C 25" = 1%nat.
Proof.
  apply (proj1 last_write_wins Exact reopen_table _ []
           [clean_row (trade "PLTR" "BTO" "1" "$2.50" "PLTR 01/19/24 C 25")]
           (clean_row (trade "PLTR" "BTO" "3" "$1.00" "PLTR 01/19/24 C 25")) []
           "PLTR 01/19/24 C 25" "PLTR" "01/19/24" "C" "25").
  - apply result_eqb_eq. vm_compute. reflexivity.
  - reflexivity.
  - reflexivity.
  - vm_compute. reflexivity.
  - vm_compute. discriminate.
  - intros r' desc' H. destruct H.
Defined.

(** ** C2: which STO rows a BTO row matches *)

(** C2.  The rows matched to a parsed ticker and expiration are the STO
    rows whose instrument is the ticker and whose description holds the
    expiration as a substring; a BTO row whose description parses is
    recorded when that set is not empty and listed as unresolved when it
    is, the option type and the strike serving in the key only.  In
    [cross_table] a call of strike 25 is matched by a put of strike 30. *)
Theorem option_matching :
  (forall (P : Platform) option_sell ticker expiration s,
     In s (matching_sell option_sell ticker expiration)
     <-> In s option_sell /\ Instrument s = Some ticker /\
         exists d, Description s = Some d /\
                   exists a b, d = a ++ expiration ++ b)
  /\ (forall (P : Platform) option_sell performance unresolved r desc t e o k,
        Description r = Some desc ->
        extract_option_details desc = Some (t, e, o, k) ->
        option_step option_sell (performance, unresolved) r
        = if is_empty (matching_sell option_sell t e)
          then Some (performance, (unresolved ++ [option_key t e o k])%list)
          else Some (Dict.set performance (option_key t e o k)
                              (option_record r (matching_sell option_sell t e)),
                     unresolved))
  /\ (matching_sell (option_sell cross_table) "PLTR" "01/19/24"
      = [clean_row (trade "PLTR" "STO" "1" "$4.00" "PLTR 01/19/24 P 30")]
      /\ exists performance unresolved,
           analyze_performance cross_table = Some (performance, unresolved) /\
           Dict.get performance "PLTR 01/19/24 C 25" = Some (record 1 1.5 60)).
Proof.
  split; [|split].
  - intros P OS ticker expiration s. unfold matching_sell.
    rewrite filter_In, andb_true_iff, instrument_is_true.
    unfold str_contains. split.
    + intros (HI & HC & HT). repeat split; auto.
      destruct (Description s) as [d|]; [|discriminate].
      exists d. split; [reflexivity|]. now apply contains_iff.
    + intros (HI & HT & d & Hd & HC). repeat split; auto.
      rewrite Hd. now apply contains_iff.
  - intros P OS performance unresolved r desc t e o k Hd He.
    rewrite option_step_outcome, (outcome_parsed _ _ _ _ _ _ _ Hd He).
    now destruct (is_empty (matching_sell OS t e)).
  - split; [reflexivity|].
    eexists. eexists. split; [exact cross_result | reflexivity].
Qed.

Lemma option_matching_witness :
  option_step (option_sell cross_table) ([], [])
              (clean_row (trade "PLTR" "BTO" "1" "$2.50" "PLTR 01/19/24 C 25"))
  = if is_empty (matching_sell (option_sell cross_table) "PLTR" "01/19/24")
    then Some ([], ([] ++ [option_key "PLTR" "01/19/24" "C" "25"])%list)
    else Some (Dict.set [] (option_key "PLTR" "01/19/24" "C" "25")
                 (option_record
                    (clean_row (trade "PLTR" "BTO" "1" "$2.50" "PLTR 01/19/24 C 25"))
                    (matching_sell (option_sell cross_table) "PLTR" "01/19/24")),
               []).
Proof.
  apply (proj1 (proj2 option_matching) Exact (option_sell cross_table) [] []
           (clean_row (trade "PLTR" "BTO" "1" "$2.50" "PLTR 01/19/24 C 25"))
           "PLTR 01/19/24 C 25").
  - reflexivity.
  - vm_compute. reflexivity.
Defined.

(** ** C5: the contract of the parser *)

Lemma extract_shape t w1 d w2 f w3 n rest :
  is_ticker t = true -> is_sep w1 = true -> is_date d = true -> is_sep w2 = true ->
  is_flag f = true -> is_sep w3 = true -> is_strike n = true ->
  Str.stops is_digit rest = true ->
  extract_option_details (t ++ w1 ++ d ++ w2 ++ f ++ w3 ++ n ++ rest)
  = Some (t, d, f, n).
Proof.
  intros. unfold extract_option_details. now rewrite search_shape.
Qed.

(** C5.  A description made of a ticker of word characters, a date
    [dd/dd/dd], a flag [P] or [C] and a strike of digits, separated by
    white space, parses to these four strings.  Without its ticker, its
    date, its flag, its strike or any one of its three separators, or
    with the flag in lower case, it parses to the empty identity. *)
Theorem parser_contract :
  (forall t w1 d w2 f w3 n,
     is_ticker t = true -> is_sep w1 = true -> is_date d = true ->
     is_sep w2 = true -> is_flag f = true -> is_sep w3 = true ->
     is_strike n = true ->
     extract_option_details (t ++ w1 ++ d ++ w2 ++ f ++ w3 ++ n) = Some (t, d, f, n)
     /\ extract_option_details (w1 ++ d ++ w2 ++ f ++ w3 ++ n) = None
     /\ extract_option_details (t ++ w1 ++ w2 ++ f ++ w3 ++ n) = None
     /\ extract_option_details (t ++ w1 ++ d ++ w2 ++ w3 ++ n) = None
     /\ extract_option_details (t ++ w1 ++ d ++ w2 ++ f ++ w3) = None
     /\ extract_option_details (t ++ d ++ w2 ++ f ++ w3 ++ n) = None
     /\ extract_option_details (t ++ w1 ++ d ++ f ++ w3 ++ n) = None
     /\ extract_option_details (t ++ w1 ++ d ++ w2 ++ f ++ n) = None
     /\ (forall f', is_lower_flag f' = true ->
                    extract_option_details (t ++ w1 ++ d ++ w2 ++ f' ++ w3 ++ n) = None))
  /\ extract_option_details "PLTR 01/19/24 C 25" = Some ("PLTR", "01/19/24", "C", "25")
  /\ extract_option_details "random text" = None.
Proof.
  split; [|split; reflexivity].
  intros t w1 d w2 f w3 n Ht H1 Hd H2 Hf H3 Hn.
  split.
  { rewrite <- (StrFacts.app_nil_r n) at 1. now apply extract_shape. }
  repeat split; try intros f' Hf'; apply extract_none.
  - now apply no_ticker.
  - now apply no_date.
  - now apply no_flag.
  - now apply no_strike.
  - now apply no_first_sep.
  - now apply no_second_sep.
  - now apply no_third_sep.
  - now apply lower_flag.
Qed.

Lemma parser_contract_witness :
  extract_option_details "PLTR 01/19/24 C 25" = Some ("PLTR", "01/19/24", "C", "25")
  /\ extract_option_details " 01/19/24 C 25" = None
  /\ extract_option_details "PLTR  C 25" = None
  /\ extract_option_details "PLTR 01/19/24  25" = None
  /\ extract_option_details "PLTR 01/19/24 C " = None
  /\ extract_option_details "PLTR01/19/24 C 25" = None
  /\ extract_option_details "PLTR 01/19/24C 25" = None
  /\ extract_option_details "PLTR 01/19/24 C25" = None
  /\ extract_option_details "PLTR 01/19/24 c 25" = None.
Proof.
  destruct (proj1 parser_contract "PLTR" " " "01/19/24" " " "C" " " "25"
              eq_refl eq_refl eq_refl eq_refl eq_refl eq_refl eq_refl)
    as (A & B & C & D & E & F & G & H & I).
  exact (conj A (conj B (conj C (conj D (conj E (conj F (conj G
           (conj H (I "c" eq_refl))))))))).
Defined.

(** ** C9: a strike written with a decimal point *)

(** C9, counterexample.  The description ["PLTR 01/19/24 C 25.50"] does
    not parse to the empty identity: the pattern matches up to the
    point. *)
Lemma decimal_strike_is_matched :
  extract_option_details "PLTR 01/19/24 C 25.50" <> None.
Proof. vm_compute. discriminate. Qed.

Lemma ends_strike_stops rest :
  ends_strike rest = true -> Str.stops is_digit rest = true.
Proof.
  destruct rest as [|c rest]; [reflexivity|]. simpl.
  intros H. now apply andb_true_iff in H as [_ H].
Qed.

(** C9, amended.  When the digits of the strike are followed by a
    decimal point and further text, or by any text that begins with an
    ASCII character other than a digit (a fraction written [" 1/2"],
    say), the pattern matches up to there: the parse returns the
    ticker, the date, the flag and, as strike, the digits before the
    point. *)
Theorem decimal_strike_truncated t w1 d w2 f w3 n :
  is_ticker t = true -> is_sep w1 = true -> is_date d = true ->
  is_sep w2 = true -> is_flag f = true -> is_sep w3 = true ->
  is_strike n = true ->
  (forall fraction,
     extract_option_details (t ++ w1 ++ d ++ w2 ++ f ++ w3 ++ n ++ "." ++ fraction)
     = Some (t, d, f, n))
  /\ (forall rest,
        ends_strike rest = true ->
        extract_option_details (t ++ w1 ++ d ++ w2 ++ f ++ w3 ++ n ++ rest)
        = Some (t, d, f, n)).
Proof.
  intros. split.
  - intros fraction. now apply extract_shape.
  - intros rest Hr. apply extract_shape; auto using ends_strike_stops.
Qed.

Lemma decimal_strike_truncated_witness :
  extract_option_details "PLTR 01/19/24 C 25.50" = Some ("PLTR", "01/19/24", "C", "25")
  /\ extract_option_details "PLTR 01/19/24 C 25 1/2" = Some ("PLTR", "01/19/24", "C", "25").
Proof.
  destruct (decimal_strike_truncated "PLTR" " " "01/19/24" " " "C" " " "25"
              eq_refl eq_refl eq_refl eq_refl eq_refl eq_refl eq_refl)
    as [A B].
  exact (conj (A "50") (B " 1/2" eq_refl)).
Defined.

(** ** C7: currency formatting *)

(** C7, counterexample.  As a price, ["($500.00)"] is not -500.00:
    line 34 takes the ['$'] away and leaves the parentheses, and the
    text ["(500.00)"] that is left is read as a missing value. *)
Lemma price_keeps_parentheses :
  strip_currency (Some "($500.00)") = Some "(500.00)"
  /\ clean_price (Some "($500.00)") = NaN.
Proof. split; reflexivity. Qed.

(** C7, amended.  Both fields lose every ['$'] and [','] before they
    are read as numbers, so ["$1,234.56"] is 1234.56 in both.  The
    price gets nothing more.  In the amount, where the pattern of line
    37 is taken as a regular expression, a parenthesised text becomes
    that text with a minus sign, so ["($500.00)"] is -500.00 as an
    amount.  Cleaning the cleaned text of a price again gives the same
    text and the same value, and so does cleaning the cleaned text of
    an amount that came out as a number. *)
Theorem currency_normalization :
  (forall s, strip_currency (Some s) = Some (Str.filter not_dollar_comma s))
  /\ (forall s, clean_price (Some s) = parse (Str.filter not_dollar_comma s))
  /\ (forall regex s,
        clean_amount regex (Some s)
        = to_number (negate_parens regex (Some (Str.filter not_dollar_comma s))))
  /\ (forall x, Str.nonempty x = true -> Str.all not_rparen x = true ->
                negate_parens true (Some ("(" ++ x ++ ")")) = Some ("-" ++ x))
  /\ clean_price (Some "$1,234.56") = of_Q 1234.56
  /\ (forall regex, clean_amount regex (Some "$1,234.56") = of_Q 1234.56)
  /\ clean_amount true (Some "($500.00)") = of_Q (-500)
  /\ (forall cell, strip_currency (strip_currency cell) = strip_currency cell)
  /\ (forall cell, clean_price (strip_currency cell) = clean_price cell)
  /\ (forall regex cell q,
        clean_amount regex cell = Some q ->
        clean_amount regex (negate_parens regex (strip_currency cell)) = Some q).
Proof.
  split; [|split; [|split; [|split; [|split; [|split; [|split; [|split; [|split]]]]]]]].
  - exact strip_erases.
  - intros s. unfold clean_price. now rewrite strip_erases.
  - intros regex s. unfold clean_amount. now rewrite strip_erases.
  - exact negate_enclosed.
  - apply num_eqb_eq. vm_compute. reflexivity.
  - intros regex. apply num_eqb_eq. destruct regex; vm_compute; reflexivity.
  - apply num_eqb_eq. vm_compute. reflexivity.
  - exact strip_idempotent.
  - intros cell. unfold clean_price. now rewrite strip_idempotent.
  - intros regex cell q. unfold clean_amount.
    destruct (negate_parens regex (strip_currency cell)) as [t|] eqn:E;
      [|discriminate].
    simpl to_number at 1. intros H.
    destruct (number_fixed regex t q H) as [-> ->]. exact H.
Qed.

Lemma currency_normalization_witness :
  negate_parens true (Some ("(" ++ "500.00" ++ ")")) = Some ("-" ++ "500.00")
  /\ clean_amount true (negate_parens true (strip_currency (Some "($500.00)")))
     = Some (Q2Qc (-500)).
Proof.
  destruct currency_normalization as (_ & _ & _ & A & _ & _ & _ & _ & _ & B).
  split.
  - apply (A "500.00"); reflexivity.
  - apply (B true (Some "($500.00)")).
    apply num_eqb_eq. vm_compute. reflexivity.
Defined.

(** ** C8: a numeric field that is not a number *)

(** C8, counterexample.  In [bad_price_table] the second purchase has
    the price ["abc"], which is read as a missing value; the cost of
    the position is not missing for that: profit and return are the
    numbers 200 and 20, those of the table without that price. *)
Lemma bad_row_does_not_null_the_sum :
  clean_price (Some "abc") = NaN
  /\ exists performance unresolved,
       analyze_performance bad_price_table = Some (performance, unresolved) /\
       Dict.get performance "XYZ" = Some (record 15 200 20).
Proof.
  split; [reflexivity|].
  eexists. eexists. split; [exact bad_price_result | reflexivity].
Qed.

Lemma same_reading_zeroed {P : Platform} (bad zeroed : num_row) :
  str_contains "BTO" (Trans_Code bad) = false ->
  isna (value bad) = true ->
  Instrument zeroed = Instrument bad ->
  Trans_Code zeroed = Trans_Code bad ->
  Description zeroed = Description bad ->
  fillna (Quantity zeroed) = fillna (Quantity bad) ->
  value zeroed = fill_value ->
  same_reading bad zeroed.
Proof.
  intros B N Hi Hc Hd Hq Hv. unfold same_reading.
  repeat split; auto; try congruence.
  unfold fillna at 1. rewrite N, Hv. unfold fillna.
  now destruct (isna fill_value).
Qed.

(** C8, amended.  A row whose product of quantity and price is missing
    (one of the two texts was not a number) counts for zero in the sums
    of the two loops: the cost and the proceeds of a stock and the
    proceeds matched to an option are those of the table in which the
    product of that row is zero, and one such row does not make a sum
    missing.  Only the cost of a BTO row, the product of its own
    quantity and price, is taken as it is: when one of the two is
    missing, the profit and the return of the record written for that
    row are missing. *)
Theorem missing_values_are_skipped :
  (forall (P : Platform) (before after : list num_row) (bad zeroed : num_row),
     str_contains "BTO" (Trans_Code bad) = false ->
     isna (value bad) = true ->
     Instrument zeroed = Instrument bad ->
     Trans_Code zeroed = Trans_Code bad ->
     Description zeroed = Description bad ->
     fillna (Quantity zeroed) = fillna (Quantity bad) ->
     value zeroed = fill_value ->
     reconcile (before ++ bad :: after)%list
     = reconcile (before ++ zeroed :: after)%list)
  /\ (forall (P : Platform) option_sell performance unresolved r desc t e o k,
        missing_propagates ->
        Description r = Some desc ->
        extract_option_details desc = Some (t, e, o, k) ->
        matching_sell option_sell t e <> [] ->
        isna (Quantity r) = true \/ isna (Price r) = true ->
        exists v,
          option_step option_sell (performance, unresolved) r
          = Some (Dict.set performance (option_key t e o k) v, unresolved)
          /\ isna (Total_Profit_Loss v) = true
          /\ isna (Return_pct v) = true).
Proof.
  split.
  - intros P before after bad zeroed B N Hi Hc Hd Hq Hv.
    unfold reconcile. rewrite !map_app. simpl. rewrite Hc.
    destruct (str_accessor _); [|reflexivity]. simpl.
    apply loops_related. apply Forall2_app; [apply same_reading_all|].
    constructor; [|apply same_reading_all].
    now apply same_reading_zeroed.
  - intros P OS performance unresolved r desc t e o k
           (Hm & Hs & Hv & Hz & Hc) Hd He HM HN.
    exists (option_perf r (matching_sell OS t e)).
    split.
    + rewrite option_step_outcome, (outcome_parsed _ _ _ _ _ _ _ Hd He).
      apply is_empty_false in HM. now rewrite HM.
    + assert (C : isna (multiply (scalar (Quantity r)) (scalar (Price r))) = true).
      { apply Hm. rewrite !Hc. exact HN. }
      unfold option_perf. cbn [Total_Profit_Loss Return_pct].
      assert (L : isna (subtract (Series_sum (map value (matching_sell OS t e)))
                                 (multiply (scalar (Quantity r)) (scalar (Price r))))
                  = true) by now apply Hs.
      split; [exact L|].
      unfold return_pct. rewrite (Hz _ C).
      apply Hm. left. now apply Hv.
Qed.

Lemma exact_missing_propagates : @missing_propagates Exact.
Proof.
  unfold missing_propagates. simpl.
  split; [|split; [|split; [|split]]].
  - intros [x|] [y|] [H | H]; try discriminate; reflexivity.
  - intros [x|] [y|] H; try discriminate; reflexivity.
  - intros [x|] [y|] H H'; try discriminate; reflexivity.
  - intros [x|] H; [discriminate | reflexivity].
  - reflexivity.
Qed.

Lemma missing_values_are_skipped_witness :
  reconcile ([clean_row (trade "XYZ" "Buy" "10" "100" "XYZ Corp")]
             ++ clean_row (trade "XYZ" "Buy" "5" "abc" "XYZ Corp")
             :: [clean_row (trade "XYZ" "Sell" "10" "120" "XYZ Corp")])%list
  = reconcile ([clean_row (trade "XYZ" "Buy" "10" "100" "XYZ Corp")]
               ++ clean_row (trade "XYZ" "Buy" "5" "0" "XYZ Corp")
               :: [clean_row (trade "XYZ" "Sell" "10" "120" "XYZ Corp")])%list
  /\ exists v,
       option_step [clean_row (trade "PLTR" "STO" "1" "$4.00" "PLTR 01/19/24 C 25")]
         ([], []) (clean_row (trade "PLTR" "BTO" "1" "n/a" "PLTR 01/19/24 C 25"))
       = Some (Dict.set [] (option_key "PLTR" "01/19/24" "C" "25") v, [])
       /\ isna (Total_Profit_Loss v) = true
       /\ isna (Return_pct v) = true.
Proof.
  destruct missing_values_are_skipped as [A B]. split.
  - apply (A Exact); reflexivity.
  - apply (B Exact _ [] [] _ "PLTR 01/19/24 C 25").
    + exact exact_missing_propagates.
    + reflexivity.
    + vm_compute. reflexivity.
    + vm_compute. discriminate.
    + right. reflexivity.
Defined.

(** ** C10: rows of no subset *)

(** C10, counterexample.  The one row of [no_amount_table] has no
    amount: the column holds no text, the [.str] accessor refuses it
    and line 37 raises.  With the ACH row before it, whose amount is a
    text, the same table is analysed and the stock is listed as
    unresolved. *)
Lemma ach_row_changes_the_result :
  unclassified ach_row = true
  /\ analyze_performance no_amount_table = None
  /\ analyze_performance (ach_row :: no_amount_table) = Some ([], ["XYZ"]).
Proof.
  split; [reflexivity|]. split; [reflexivity|]. by_evaluation.
Qed.

(** C10, amended.  A row whose transaction code is missing or holds
    none of ["Buy"], ["Sell"], ["BTO"], ["STO"] can be added to a table
    or taken out of it, at any place, without any change to what
    [analyze_performance] returns or raises, provided the row changes
    neither the outcome of the two tests of the [.str] accessor (it
    does when it holds the only text of the amounts or of the
    transaction codes) nor the numbers read in the quantities and the
    prices of the other rows (it does when it changes the dtype of one
    of the two columns).  An ACH row is such a row. *)
Theorem unclassified_rows_inert :
  (forall (P : Platform) before r after,
     unclassified r = true ->
     accepted (before ++ r :: after)%list = accepted (before ++ after)%list ->
     quantities (before ++ after)%list
     = without (List.length before) (quantities (before ++ r :: after)%list) ->
     prices (before ++ after)%list
     = without (List.length before) (prices (before ++ r :: after)%list) ->
     analyze_performance (before ++ r :: after)%list
     = analyze_performance (before ++ after)%list)
  /\ unclassified ach_row = true.
Proof.
  split; [|reflexivity].
  intros P before r after H HA HQ HP. unfold unclassified in H.
  rewrite !andb_true_iff, !negb_true_iff in H.
  destruct H as [[[HB HS] HO] HC].
  rewrite !analyze_loops, HA.
  destruct (accepted (before ++ after)%list); [|reflexivity].
  destruct (clean_cut before r after HQ HP) as (cb & q & p & a & ca & E & R).
  rewrite E, (loops_skip cb (numbered r q p a) ca) by assumption.
  now apply loops_related.
Qed.

Lemma unclassified_rows_inert_witness :
  analyze_performance ([trade "XYZ" "Buy" "10" "100" "XYZ Corp"]
                       ++ ach_row :: [trade "XYZ" "Sell" "10" "120" "XYZ Corp"])%list
  = analyze_performance ([trade "XYZ" "Buy" "10" "100" "XYZ Corp"]
                         ++ [trade "XYZ" "Sell" "10" "120" "XYZ Corp"])%list.
Proof.
  apply (proj1 unclassified_rows_inert Exact); reflexivity.
Defined.

(** * Further properties: the other functions of [app.py] *)

(** ** [allowed_file] *)

Module FileFacts.
Import StrFacts ClassFacts OutcomeFacts.

Lemma rsplit1_whole s : Str.all not_dot s = true -> rsplit1 "." s = [s].
Proof.
  induction s as [|c s IH]; [reflexivity|].
  simpl. intros H. apply andb_true_iff in H as [Hc Hs].
  rewrite (IH Hs). unfold not_dot in Hc. apply negb_true_iff in Hc.
  now rewrite Hc.
Qed.

(** the split is made at the last dot *)
Lemma rsplit1_last name ext :
  Str.all not_dot ext = true ->
  rsplit1 "." (name ++ String "." ext) = [name; ext].
Proof.
  intros H. induction name as [|c name IH].
  - simpl. now rewrite (rsplit1_whole ext H).
  - simpl. now rewrite IH.
Qed.

Lemma no_dot_no_contains s :
  Str.all not_dot s = true -> Str.contains "." s = false.
Proof.
  induction s as [|c s IH]; [reflexivity|].
  intros H. simpl in H. apply andb_true_iff in H as [Hc Hs].
  change (Str.contains "." (String c s))
    with (if String.prefix "." (String c s) then true else Str.contains "." s).
  rewrite (IH Hs). unfold not_dot in Hc. apply negb_true_iff in Hc.
  destruct (String.prefix "." (String c s)) eqn:E; [|reflexivity].
  apply prefix_iff in E as (b & E). inversion E; subst. discriminate.
Qed.

(** a text holds no dot, or is cut in two at its last dot *)
Lemma cut_at_last_dot s :
  Str.all not_dot s = true
  \/ exists name ext, s = name ++ String "." ext /\ Str.all not_dot ext = true.
Proof.
  induction s as [|c s IH]; [now left|].
  destruct IH as [H | (name & ext & -> & H)].
  - destruct (Ascii.eqb_spec c ".") as [-> | N].
    + right. exists EmptyString, s. auto.
    + left. simpl. rewrite H. unfold not_dot.
      apply Ascii.eqb_neq in N. now rewrite N.
  - right. exists (String c name), ext. auto.
Qed.

Lemma lower_char_dot c : not_dot (lower_char c) = not_dot c.
Proof. by_cases c. Qed.

Lemma lower_no_dot s : Str.all not_dot (lower s) = Str.all not_dot s.
Proof.
  induction s as [|c s IH]; [reflexivity|].
  simpl. now rewrite IH, lower_char_dot.
Qed.

Lemma allowed_split name ext :
  Str.all not_dot ext = true ->
  allowed_file (name ++ String "." ext) = String.eqb (lower ext) "csv".
Proof.
  intros H. unfold allowed_file.
  change (name ++ String "." ext) with (name ++ "." ++ ext) at 1.
  rewrite contains_app, (rsplit1_last name ext H). simpl.
  now rewrite orb_false_r.
Qed.

End FileFacts.

Import FileFacts.

(** X1.  The verdict of [allowed_file] on a name with a dot depends on
    the text after the last dot alone, read without regard to case:
    the name is allowed when that text is [csv] in lower case, and
    refused otherwise, whatever stands before the dot. *)
Theorem allowed_by_last_extension name ext :
  Str.all not_dot ext = true ->
  allowed_file (name ++ "." ++ ext) = String.eqb (lower ext) "csv".
Proof. intros H. now apply allowed_split. Qed.

Lemma allowed_by_last_extension_witness :
  allowed_file "trades.2024.CsV" = true.
Proof.
  exact (allowed_by_last_extension "trades.2024" "CsV" eq_refl).
Defined.

(** X2.  The names [allowed_file] lets through are those made of any
    text, a dot, and [csv] in any mix of cases; a name without a dot, a
    name that ends in a dot and a name with anything after the
    extension are refused. *)
Theorem allowed_names filename :
  allowed_file filename = true
  <-> exists name ext, filename = name ++ "." ++ ext /\ lower ext = "csv".
Proof.
  split.
  - intros H. destruct (cut_at_last_dot filename) as [N | (name & ext & -> & N)].
    + unfold allowed_file in H. now rewrite (no_dot_no_contains _ N) in H.
    + rewrite (allowed_split name ext N) in H. apply String.eqb_eq in H.
      now exists name, ext.
  - intros (name & ext & -> & H).
    assert (N : Str.all not_dot ext = true) by now rewrite <- lower_no_dot, H.
    change (name ++ "." ++ ext) with (name ++ String "." ext).
    rewrite (allowed_split name ext N), H. reflexivity.
Qed.

Lemma allowed_names_witness :
  exists name ext, ".CSV" = name ++ "." ++ ext /\ lower ext = "csv".
Proof.
  exact (proj1 (allowed_names ".CSV") eq_refl).
Defined.

(** ** [extract_option_details]: what is found and what is not *)

Module CompleteFacts.
Import StrFacts ClassFacts ReFacts ParserFacts KeyFacts.

Section Complete.
Context {A : Type}.

(** a greedy repetition finds a way on when there is one *)
Lemma greedy_complete p u r acc (k : string -> string -> option A) :
  Str.all p u = true -> k (acc ++ u) r <> None ->
  greedy p (u ++ r) acc k <> None.
Proof.
  revert acc. induction u as [|x u IH]; intros acc Hu Hk.
  - rewrite app_nil_r in Hk. simpl. destruct r as [|c r]; [exact Hk|].
    simpl. destruct (p c); [|exact Hk].
    destruct (greedy p r (acc ++ String c EmptyString) k); [discriminate | exact Hk].
  - simpl in Hu. apply andb_true_iff in Hu as [Hx Hu].
    simpl. rewrite Hx.
    assert (G : greedy p (u ++ r) (acc ++ String x EmptyString) k <> None).
    { apply IH; [assumption|]. now rewrite app_assoc. }
    destruct (greedy p (u ++ r) (acc ++ String x EmptyString) k);
      [discriminate | contradiction].
Qed.

(** the matcher finds a match of a text of the language, or another *)
Lemma rmatch_complete r m g :
  lang r m g ->
  forall rest (k : @cont A),
    k m rest g <> None -> rmatch r (m ++ rest) k <> None.
Proof.
  induction 1 as [p c Hc | p m Hn Hm | r1 r2 m1 m2 g1 g2 L1 IH1 L2 IH2 | r m g L IH];
    intros rest k Hk.
  - simpl. now rewrite Hc.
  - destruct m as [|c m]; [discriminate|].
    simpl in Hm. apply andb_true_iff in Hm as [Hc Hm].
    simpl. rewrite Hc.
    now apply (greedy_complete p m rest (String c EmptyString)
                 (fun m0 rest0 => k m0 rest0 [])).
  - rewrite app_assoc. cbn [rmatch]. apply IH1. now apply IH2.
  - cbn [rmatch]. now apply IH.
Qed.
End Complete.

Lemma search_complete r pre m g post :
  lang r m g -> search r (pre ++ m ++ post) <> None.
Proof.
  intros L. induction pre as [|c pre IH].
  - change (EmptyString ++ m ++ post) with (m ++ post).
    rewrite search_unfold. unfold match_at.
    pose proof (rmatch_complete r m g L post (fun m0 rest g0 => Some (m0, rest, g0))) as C.
    destruct (rmatch r (m ++ post) (fun m0 rest g0 => Some (m0, rest, g0)))
      as [[[? ?] ?]|]; [discriminate|].
    exfalso. apply C; [discriminate | reflexivity].
  - change (String c pre ++ m ++ post) with (String c (pre ++ m ++ post)).
    rewrite search_unfold.
    destruct (match_at r (String c (pre ++ m ++ post))) as [[[? ?] ?]|];
      [discriminate | exact IH].
Qed.

Lemma lang_of_tokens t w1 d w2 f w3 n :
  is_ticker t = true -> is_sep w1 = true -> is_date d = true ->
  is_sep w2 = true -> is_flag f = true -> is_sep w3 = true ->
  is_strike n = true ->
  lang option_re (t ++ w1 ++ d ++ w2 ++ f ++ w3 ++ n) [t; d; f; n].
Proof.
  intros Ht H1 Hd H2 Hf H3 Hn.
  apply ticker_inv in Ht as [Nt At]. apply sep_inv in H1 as [N1 A1].
  apply sep_inv in H2 as [N2 A2]. apply sep_inv in H3 as [N3 A3].
  apply strike_inv in Hn as [Nn An].
  apply flag_inv in Hf as (c & -> & Hc).
  apply date_inv in Hd as (a & b & x & e & y & z & -> & Ha & Hb & Hx & He & Hy & Hz).
  unfold option_re, date_re.
  apply (lang_seq _ _ t _ [t] [_; _; _]); [now repeat constructor|].
  apply (lang_seq _ _ w1 _ [] [_; _; _]); [now constructor|].
  apply (lang_seq _ _ _ _ [_] [_; _]).
  { apply lang_grp.
    apply (lang_seq _ _ (String a EmptyString) _ [] []); [now constructor|].
    apply (lang_seq _ _ (String b EmptyString) _ [] []); [now constructor|].
    apply (lang_seq _ _ (String "/" EmptyString) _ [] []); [now constructor|].
    apply (lang_seq _ _ (String x EmptyString) _ [] []); [now constructor|].
    apply (lang_seq _ _ (String e EmptyString) _ [] []); [now constructor|].
    apply (lang_seq _ _ (String "/" EmptyString) _ [] []); [now constructor|].
    apply (lang_seq _ _ (String y EmptyString) _ [] []); now constructor. }
  apply (lang_seq _ _ w2 _ [] [_; _]); [now constructor|].
  apply (lang_seq _ _ (String c EmptyString) _ [_] [_]); [now repeat constructor|].
  apply (lang_seq _ _ w3 _ [] [_]); [now constructor|].
  now repeat constructor.
Qed.

Lemma extract_of_search s g :
  search option_re s = Some g -> extract_option_details s <> None.
Proof.
  intros H. unfold extract_option_details. rewrite H.
  apply search_sound in H as (pre & m & rest & _ & L).
  apply lang_option_re in L as (t & w1 & d & w2 & f & w3 & n & _ & -> & _).
  discriminate.
Qed.

End CompleteFacts.

Import CompleteFacts.

(** X3.  What [extract_option_details] returns for an ASCII
    description is in the description: a ticker of word characters,
    white space, a date [dd/dd/dd], white space, [P] or [C], white
    space and a strike of digits, one after the other, somewhere in
    the text. *)
Theorem parsed_tokens_are_in_the_description description t e o k :
  Str.all is_ascii description = true ->
  extract_option_details description = Some (t, e, o, k) ->
  exists before w1 w2 w3 after,
    description = before ++ t ++ w1 ++ e ++ w2 ++ o ++ w3 ++ k ++ after
    /\ is_ticker t = true /\ is_sep w1 = true /\ is_date e = true
    /\ is_sep w2 = true /\ is_flag o = true /\ is_sep w3 = true
    /\ is_strike k = true.
Proof. intros _. apply extract_sound. Qed.

Lemma parsed_tokens_are_in_the_description_witness :
  exists before w1 w2 w3 after,
    "Option: PLTR 01/19/24 C 25.50 exp"
    = before ++ "PLTR" ++ w1 ++ "01/19/24" ++ w2 ++ "C" ++ w3 ++ "25" ++ after
    /\ is_ticker "PLTR" = true /\ is_sep w1 = true /\ is_date "01/19/24" = true
    /\ is_sep w2 = true /\ is_flag "C" = true /\ is_sep w3 = true
    /\ is_strike "25" = true.
Proof.
  exact (parsed_tokens_are_in_the_description
           "Option: PLTR 01/19/24 C 25.50 exp" "PLTR" "01/19/24" "C" "25"
           eq_refl eq_refl).
Defined.

(** X4.  [extract_option_details] returns the empty identity only for
    a description that holds the five tokens nowhere: a description
    with a ticker, a date, a flag and a strike in a row, whatever
    stands before and after them, always parses to some identity. *)
Theorem option_text_is_always_found before t w1 d w2 f w3 n after :
  is_ticker t = true -> is_sep w1 = true -> is_date d = true ->
  is_sep w2 = true -> is_flag f = true -> is_sep w3 = true ->
  is_strike n = true ->
  extract_option_details (before ++ t ++ w1 ++ d ++ w2 ++ f ++ w3 ++ n ++ after)
  <> None.
Proof.
  intros Ht H1 Hd H2 Hf H3 Hn.
  pose proof (lang_of_tokens t w1 d w2 f w3 n Ht H1 Hd H2 Hf H3 Hn) as L.
  pose proof (search_complete option_re before _ _ after L) as S.
  rewrite !StrFacts.app_assoc in S.
  destruct (search option_re
              (before ++ t ++ w1 ++ d ++ w2 ++ f ++ w3 ++ n ++ after)) as [g|] eqn:E;
    [|contradiction].
  now apply (extract_of_search _ g).
Qed.

Lemma option_text_is_always_found_witness :
  extract_option_details "9X1 PLTR 01/19/24 C 257 calls" <> None.
Proof.
  exact (option_text_is_always_found "9X1 " "PLTR" " " "01/19/24" " " "C" " " "25"
           "7 calls" eq_refl eq_refl eq_refl eq_refl eq_refl eq_refl eq_refl).
Defined.

(** ** [analyze_performance]: errors, outputs, what is read *)

Module MoreEngineFacts.
Import StrFacts DictFacts EngineFacts CleanFacts OutcomeFacts ReadingFacts.
Section WithPlatform.
Context {P : Platform}.

Lemma with_code_keep code (l1 : list num_row) (r : num_row) l2 :
  str_contains code (Trans_Code r) = true ->
  with_code code (l1 ++ r :: l2)%list
  = (with_code code l1 ++ r :: with_code code l2)%list.
Proof.
  intros H. unfold with_code. rewrite !filter_app. simpl. now rewrite H.
Qed.

Lemma with_code_app code (l1 l2 : list num_row) :
  with_code code (l1 ++ l2)%list = (with_code code l1 ++ with_code code l2)%list.
Proof. unfold with_code. now rewrite filter_app. Qed.

(** the list of the option loop grows by the unmatched keys, in order *)
Lemma options_unresolved_list OS l p u p' u' :
  for_each (option_step OS) l (p, u) = Some (p', u') ->
  u' = (u ++ unmatched_keys OS l)%list.
Proof.
  revert p u. induction l as [|r l IH]; intros p u H.
  - simpl in H. inversion H. now rewrite List.app_nil_r.
  - cbn [for_each] in H. rewrite option_step_outcome in H.
    unfold unmatched_keys. cbn [flat_map]. fold (unmatched_keys OS l).
    destruct (option_outcome OS r) as [| |k v|k]; try discriminate.
    + now apply IH in H.
    + now apply IH in H.
    + apply IH in H. now rewrite H, <- List.app_assoc.
Qed.

Lemma stocks_unsold data : snd (after_stocks data) = unsold_tickers data.
Proof.
  unfold after_stocks, unsold_tickers. rewrite (stock_fold (P := P)). simpl.
  apply filter_ext_in. intros t Ht. apply In_tickers in Ht.
  unfold resolved. fold (buys_of data t). fold (sells_of data t).
  apply is_empty_false in Ht. rewrite Ht. simpl. now rewrite negb_involutive.
Qed.

(** a row of the BTO subset alone counts in the loops through its turn
    of the second loop *)
Lemma loops_opening l1 (x x' : num_row) l2 :
  str_contains "Buy" (Trans_Code x) = false ->
  str_contains "Sell" (Trans_Code x) = false ->
  str_contains "STO" (Trans_Code x) = false ->
  Trans_Code x' = Trans_Code x ->
  (forall OS st, option_step OS st x' = option_step OS st x) ->
  loops (l1 ++ x' :: l2)%list = loops (l1 ++ x :: l2)%list.
Proof.
  intros HB HS HC E H. unfold loops.
  rewrite (with_code_skip "Buy" l1 x l2), (with_code_skip "Sell" l1 x l2),
    (with_code_skip "STO" l1 x l2) by assumption.
  rewrite (with_code_skip "Buy" l1 x' l2), (with_code_skip "Sell" l1 x' l2),
    (with_code_skip "STO" l1 x' l2) by (rewrite E; assumption).
  destruct (str_contains "BTO" (Trans_Code x)) eqn:HO.
  - rewrite !with_code_keep by (rewrite ?E; assumption).
    rewrite !for_each_app.
    destruct (for_each _ (with_code "BTO" l1) _) as [st|]; [|reflexivity].
    cbn [for_each]. now rewrite H.
  - rewrite (with_code_skip "BTO" l1 x l2) by assumption.
    now rewrite (with_code_skip "BTO" l1 x' l2) by (rewrite E; assumption).
Qed.

(** a row of the BTO subset alone whose turn changes nothing can be
    left out *)
Lemma loops_idle l1 (x : num_row) l2 :
  str_contains "Buy" (Trans_Code x) = false ->
  str_contains "Sell" (Trans_Code x) = false ->
  str_contains "STO" (Trans_Code x) = false ->
  (forall OS st, option_step OS st x = Some st) ->
  loops (l1 ++ x :: l2)%list = loops (l1 ++ l2)%list.
Proof.
  intros HB HS HC H. unfold loops.
  rewrite (with_code_skip "Buy" l1 x l2), (with_code_skip "Sell" l1 x l2),
    (with_code_skip "STO" l1 x l2) by assumption.
  destruct (str_contains "BTO" (Trans_Code x)) eqn:HO.
  - rewrite with_code_keep by assumption.
    rewrite (with_code_app "BTO" l1 l2), !for_each_app.
    destruct (for_each _ (with_code "BTO" l1) _) as [st|]; [|reflexivity].
    cbn [for_each]. now rewrite H.
  - now rewrite (with_code_skip "BTO" l1 x l2) by assumption.
Qed.

(** the codes of a table are those of the table cleaned *)
Lemma codes_set_numbers d q p a :
  List.length q = List.length d -> List.length p = List.length d ->
  List.length a = List.length d ->
  map Trans_Code (set_numbers d q p a) = map Trans_Code d.
Proof.
  revert q p a. induction d as [|r d IH]; intros q p a Hq Hp Ha; [reflexivity|].
  destruct q as [|x q], p as [|y p], a as [|z a]; try discriminate.
  simpl in *. f_equal. apply IH; congruence.
Qed.

Lemma codes_clean data : map Trans_Code (clean data) = map Trans_Code data.
Proof.
  unfold clean, quantity_text, price_text, amount_text, amount_stripped.
  apply codes_set_numbers; now rewrite to_numeric_length, !length_map.
Qed.

(** [analyze_performance] is the cleaning step followed by the rest *)
Lemma analyze_reconcile data :
  analyze_performance data
  = if str_accessor (amount_stripped data) then reconcile (clean data) else None.
Proof.
  rewrite analyze_loops. unfold accepted, reconcile. rewrite codes_clean.
  destruct (str_accessor (amount_stripped data)),
           (str_accessor (map Trans_Code data)); reflexivity.
Qed.

End WithPlatform.
End MoreEngineFacts.

Import MoreEngineFacts.

(** X5.  [analyze_performance] raises whenever a row of the BTO subset
    has no description ([re.search] is given the missing value),
    whatever else the table holds. *)
Theorem raises_on_missing_description {P : Platform} data :
  (exists r, In r (option_buy data) /\ Description r = None) ->
  analyze_performance data = None.
Proof.
  intros (r & Hr & Hd). now apply (analyze_raises data r).
Qed.

Lemma raises_on_missing_description_witness :
  analyze_performance
    [ trade "XYZ" "Buy" "10" "100" "XYZ Corp";
      {| Instrument := Some "PLTR"; Trans_Code := Some "BTO";
         Quantity := Some "1"; Price := Some "$2.50";
         Amount := Some "($250.00)"; Description := None |} ] = None.
Proof.
  apply (raises_on_missing_description (P := Exact)).
  eexists. split; [left; reflexivity | reflexivity].
Defined.

(** X6.  A BTO row whose description does not parse leaves no trace:
    with it or without it, at any place of the table, the mapping and
    the list returned are the same (the row is neither recorded nor
    listed as unresolved), provided the row changes neither the outcome
    of the two tests of the [.str] accessor nor the numbers read in the
    quantities and the prices of the other rows. *)
Theorem unparsed_opening_is_skipped {P : Platform} before r after description :
  opening_only r = true ->
  Description r = Some description ->
  extract_option_details description = None ->
  accepted (before ++ r :: after)%list = accepted (before ++ after)%list ->
  quantities (before ++ after)%list
  = without (List.length before) (quantities (before ++ r :: after)%list) ->
  prices (before ++ after)%list
  = without (List.length before) (prices (before ++ r :: after)%list) ->
  analyze_performance (before ++ r :: after)%list
  = analyze_performance (before ++ after)%list.
Proof.
  intros H Hd He HA HQ HP. unfold opening_only in H.
  rewrite !andb_true_iff, !negb_true_iff in H. destruct H as [[HB HS] HC].
  rewrite !analyze_loops, HA.
  destruct (accepted (before ++ after)%list); [|reflexivity].
  destruct (clean_cut before r after HQ HP) as (cb & q & p & a & ca & E & R).
  rewrite E, (loops_idle cb (numbered r q p a) ca); auto.
  - now apply loops_related.
  - intros OS [pf un]. unfold option_step. cbn [Description numbered].
    now rewrite Hd, He.
Qed.

Lemma unparsed_opening_is_skipped_witness :
  analyze_performance
    ([trade "PLTR" "BTO" "1" "$2.50" "PLTR 01/19/24 C 25"]
     ++ trade "PLTR" "BTO" "1" "$2.50" "PLTR Jan 19 call" ::
        [trade "PLTR" "STO" "1" "$4.00" "PLTR 01/19/24 C 25"])%list
  = analyze_performance
      ([trade "PLTR" "BTO" "1" "$2.50" "PLTR 01/19/24 C 25"]
       ++ [trade "PLTR" "STO" "1" "$4.00" "PLTR 01/19/24 C 25"])%list.
Proof.
  apply (unparsed_opening_is_skipped (P := Exact) _ _ _ "PLTR Jan 19 call");
    reflexivity.
Defined.

(** X7.  The list returned is, in this order: the tickers that have a
    Buy row and no Sell row, each once, in the order of their first
    Buy row; then, row by row, the composite key of every BTO row that
    parses and matches no STO row, a key as many times as it has such
    rows. *)
Theorem unresolved_in_order {P : Platform} data performance unresolved :
  analyze_performance data = Some (performance, unresolved) ->
  unresolved
  = (unsold_tickers data
     ++ unmatched_keys (option_sell data) (option_buy data))%list
  /\ NoDup (unsold_tickers data).
Proof.
  intros H. apply analyze_some in H.
  destruct (after_stocks data) as [p u] eqn:E.
  split.
  - rewrite (options_unresolved_list _ _ _ _ _ _ H).
    f_equal. change u with (snd (p, u)). rewrite <- E. apply stocks_unsold.
  - unfold unsold_tickers. apply NoDup_filter. apply NoDup_unique.
Qed.

Lemma unresolved_in_order_witness :
  ["XYZ"; "PLTR 01/19/24 C 25"; "PLTR 01/19/24 C 25"]
  = (unsold_tickers
       [ trade "PLTR" "BTO" "1" "$2.50" "PLTR 01/19/24 C 25";
         trade "XYZ" "Buy" "10" "100" "XYZ Corp";
         trade "PLTR" "BTO" "2" "$3.00" "PLTR 01/19/24 C 25";
         trade "XYZ" "Buy" "5" "101" "XYZ Corp" ]
     ++ unmatched_keys
          (option_sell
             [ trade "PLTR" "BTO" "1" "$2.50" "PLTR 01/19/24 C 25";
               trade "XYZ" "Buy" "10" "100" "XYZ Corp";
               trade "PLTR" "BTO" "2" "$3.00" "PLTR 01/19/24 C 25";
               trade "XYZ" "Buy" "5" "101" "XYZ Corp" ])
          (option_buy
             [ trade "PLTR" "BTO" "1" "$2.50" "PLTR 01/19/24 C 25";
               trade "XYZ" "Buy" "10" "100" "XYZ Corp";
               trade "PLTR" "BTO" "2" "$3.00" "PLTR 01/19/24 C 25";
               trade "XYZ" "Buy" "5" "101" "XYZ Corp" ]))%list.
Proof.
  apply (unresolved_in_order (P := Exact) _ []). by_evaluation.
Defined.

(** X8.  The keys of the mapping returned are all different, and they
    are the tickers that have a Buy row and a Sell row together with
    the composite keys of the BTO rows that parse and match an STO
    row: every key stands for an opening and a closing, every such
    position has its key. *)
Theorem performance_keys {P : Platform} data performance unresolved :
  analyze_performance data = Some (performance, unresolved) ->
  NoDup (Dict.keys performance)
  /\ forall key,
       In key (Dict.keys performance)
       <-> (buys_of data key <> [] /\ sells_of data key <> [])
           \/ exists r desc t e o k,
                In r (option_buy data) /\ Description r = Some desc /\
                extract_option_details desc = Some (t, e, o, k) /\
                key = option_key t e o k /\
                matching_sell (option_sell data) t e <> [].
Proof.
  intros H. apply analyze_some in H.
  destruct (after_stocks data) as [p u] eqn:E.
  assert (Ep : p = fst (after_stocks data)) by now rewrite E.
  split.
  - apply (options_nodup _ _ _ _ _ _ H). rewrite Ep. apply stocks_nodup.
  - intros key. rewrite (options_keys _ _ _ _ _ _ key H), Ep, stocks_keys.
    split; (intros [S | O]; [now left | right]).
    + destruct O as (r & v & Hr & O).
      apply outcome_writes in O as (d & t & e & o & k & Hd & He & -> & M & _).
      now exists r, d, t, e, o, k.
    + destruct O as (r & d & t & e & o & k & Hr & Hd & He & -> & M).
      exists r, (option_perf r (matching_sell (option_sell data) t e)).
      split; [assumption|].
      rewrite (outcome_parsed _ _ _ _ _ _ _ Hd He).
      apply is_empty_false in M. now rewrite M.
Qed.

Lemma performance_keys_witness :
  NoDup (Dict.keys [("PLTR 01/19/24 C 25", record 1 1.5 60)])
  /\ (In "PLTR 01/19/24 C 25" (Dict.keys [("PLTR 01/19/24 C 25", record 1 1.5 60)])
      <-> (buys_of mixed_table "PLTR 01/19/24 C 25" <> []
           /\ sells_of mixed_table "PLTR 01/19/24 C 25" <> [])
          \/ exists r desc t e o k,
               In r (option_buy mixed_table) /\ Description r = Some desc /\
               extract_option_details desc = Some (t, e, o, k) /\
               "PLTR 01/19/24 C 25" = option_key t e o k /\
               matching_sell (option_sell mixed_table) t e <> []).
Proof.
  destruct (performance_keys (P := Exact) mixed_table
              [("PLTR 01/19/24 C 25", record 1 1.5 60)] ["XYZ"]) as [A B].
  - apply result_eqb_eq. vm_compute. reflexivity.
  - exact (conj A (B "PLTR 01/19/24 C 25")).
Defined.

(** X10.  The amount column is cleaned and never read: whatever is
    written in the amounts of a table, what [analyze_performance]
    returns or raises is the same, as long as the [.str] accessor
    decides the same on the two columns of amounts. *)
Theorem amount_is_never_read {P : Platform} (amount : raw_row -> option string) data :
  str_accessor (amount_stripped (map (fun r => with_amount (amount r) r) data))
  = str_accessor (amount_stripped data) ->
  analyze_performance (map (fun r => with_amount (amount r) r) data)
  = analyze_performance data.
Proof.
  intros HA. rewrite !analyze_loops. unfold accepted. rewrite HA.
  rewrite map_map. cbn [Trans_Code with_amount].
  destruct (_ && _); [|reflexivity].
  apply loops_related. unfold clean, quantity_text, price_text.
  rewrite !map_map. cbn [Quantity Price with_amount].
  apply set_numbers_related.
  - clear HA. induction data as [|r data IH]; simpl; constructor; [|exact IH].
    unfold same_text. simpl. tauto.
  - now rewrite to_numeric_length, !length_map.
  - now rewrite to_numeric_length, !length_map.
  - unfold amount_text, amount_stripped.
    now rewrite to_numeric_length, !length_map.
  - unfold amount_text, amount_stripped.
    now rewrite to_numeric_length, !length_map.
Qed.

Lemma amount_is_never_read_witness :
  analyze_performance (map (fun r => with_amount (Some "n/a") r) xyz_table)
  = analyze_performance xyz_table.
Proof.
  apply (amount_is_never_read (P := Exact) (fun _ => Some "n/a")). reflexivity.
Defined.

(** X11.  The instrument of a row that is in the BTO subset alone is
    never read, the ticker of an option being taken from its
    description: with any other instrument in that row the result is
    the same. *)
Theorem opening_instrument_is_never_read {P : Platform} before r after instrument :
  opening_only r = true ->
  analyze_performance (before ++ with_instrument instrument r :: after)%list
  = analyze_performance (before ++ r :: after)%list.
Proof.
  intros H. unfold opening_only in H.
  rewrite !andb_true_iff, !negb_true_iff in H. destruct H as [[HB HS] HC].
  rewrite !analyze_loops.
  assert (A : accepted (before ++ with_instrument instrument r :: after)%list
              = accepted (before ++ r :: after)%list).
  { unfold accepted, amount_stripped. now rewrite !map_app. }
  rewrite A. clear A.
  destruct (accepted (before ++ r :: after)%list); [|reflexivity].
  destruct (clean_at before r after) as (cb & q & p & a & ca & E & E').
  rewrite E, (E' (with_instrument instrument r)).
  - apply loops_opening; auto.
  - unfold quantity_text. now rewrite !map_app.
  - unfold price_text. now rewrite !map_app.
  - unfold amount_text, amount_stripped. now rewrite !map_app.
Qed.

Lemma opening_instrument_is_never_read_witness :
  analyze_performance
    ([] ++ with_instrument (Some "TSLA")
             (trade "PLTR" "BTO" "1" "$2.50" "PLTR 01/19/24 C 25")
        :: [trade "PLTR" "STO" "1" "$4.00" "PLTR 01/19/24 C 25"])%list
  = analyze_performance
      ([] ++ trade "PLTR" "BTO" "1" "$2.50" "PLTR 01/19/24 C 25"
          :: [trade "PLTR" "STO" "1" "$4.00" "PLTR 01/19/24 C 25"])%list.
Proof.
  apply (opening_instrument_is_never_read (P := Exact) [] _ _ (Some "TSLA")).
  reflexivity.
Defined.

(** X12.  Only the price and the amount are stripped of ['$'] and
    [',']: a quantity written with one of them, ["1,000"] say, is read
    as a missing value, while the same text as a price is stripped and
    read. *)
Theorem quantity_is_not_stripped s :
  Str.all not_dollar_comma s = false ->
  clean_quantity (Some s) = NaN
  /\ clean_price (Some s) = parse (Str.filter not_dollar_comma s).
Proof.
  intros H. split.
  - unfold clean_quantity. simpl. destruct (parse s) as [q|] eqn:E; [|reflexivity].
    apply parse_chars in E.
    assert (A : Str.all not_dollar_comma s = true)
      by (apply (all_impl numeric_char); auto using numeric_not_dollar_comma).
    congruence.
  - unfold clean_price. now rewrite strip_erases.
Qed.

Lemma quantity_is_not_stripped_witness :
  clean_quantity (Some "1,000") = NaN
  /\ clean_price (Some "1,000") = parse (Str.filter not_dollar_comma "1,000").
Proof.
  exact (quantity_is_not_stripped "1,000" eq_refl).
Defined.

(** ** [generate_summary] *)

Module SummaryFacts.
Import StrFacts OutcomeFacts CleanFacts.

Lemma contains_app_l sub a b :
  Str.contains sub a = true -> Str.contains sub (a ++ b) = true.
Proof.
  intros H. apply contains_iff in H as (x & y & ->). apply contains_iff.
  exists x, (y ++ b). now rewrite !app_assoc.
Qed.

Lemma contains_app_r sub a b :
  Str.contains sub b = true -> Str.contains sub (a ++ b) = true.
Proof.
  intros H. apply contains_iff in H as (x & y & ->). apply contains_iff.
  exists (a ++ x), y. now rewrite !app_assoc.
Qed.

(** the closing sentences are the end of the text *)
Lemma closing_shape (s h p q mid f dot x y : string) (b : bool) :
  s ++ (if b
        then (h ++ (if b then p else q) ++ mid ++ f ++ dot) ++ x
        else (h ++ (if b then p else q) ++ mid ++ f ++ dot) ++ y)
  = (s ++ h) ++ (if b then p else q) ++ mid ++ f ++ dot ++ (if b then x else y).
Proof. destruct b; now rewrite !app_assoc. Qed.

Lemma app_assoc3 (a b c d : string) : a ++ b ++ c ++ d = (a ++ b ++ c) ++ d.
Proof. now rewrite !StrFacts.app_assoc. Qed.

Lemma contains_start (s t : string) : Str.contains s (s ++ t) = true.
Proof. apply OutcomeFacts.contains_iff. now exists EmptyString, t. Qed.

Section Report.
Context {P : Platform}.

(** a total that is missing stays missing *)
Lemma total_from_missing (performance : dict) acc :
  missing_total -> isna acc = true ->
  isna (fold_left (fun acc item => add acc (Total_Profit_Loss (snd item)))
                  performance acc) = true.
Proof.
  intros [Ha _]. revert acc.
  induction performance as [|kv l IH]; intros acc H; [exact H|].
  simpl. apply IH, Ha. now left.
Qed.

(** one missing profit makes the total missing *)
Lemma total_profit_missing performance k v :
  missing_total ->
  In (k, v) performance -> isna (Total_Profit_Loss v) = true ->
  isna (total_profit performance) = true.
Proof.
  intros M. unfold total_profit. generalize (of_int 0).
  induction performance as [|kv l IH]; intros acc H E; [destruct H|].
  simpl. destruct H as [-> | H].
  - simpl. apply (total_from_missing l _ M). destruct M as [Ha _].
    apply Ha. now right.
  - now apply IH.
Qed.

Variable str_of : num -> string.
Variable fixed2 : num -> string.

Lemma summary_loop performance summary total :
  fold_left (summary_step str_of fixed2) performance (summary, total)
  = (summary
     ++ fold_right (fun item text => summary_item str_of fixed2 (fst item) (snd item) ++ text)
          EmptyString performance,
     fold_left (fun acc item => add acc (Total_Profit_Loss (snd item)))
               performance total).
Proof.
  revert summary total. induction performance as [|[k v] l IH]; intros s t.
  - simpl. now rewrite app_nil_r.
  - cbn [fold_left fold_right summary_step fst snd]. rewrite IH.
    now rewrite app_assoc.
Qed.

Lemma unresolved_loop (unresolved : list string) summary :
  fold_left (fun s u => s ++ "<li>" ++ u ++ "</li>") unresolved summary
  = summary
    ++ fold_right (fun u text => "<li>" ++ u ++ "</li>" ++ text) EmptyString unresolved.
Proof.
  revert summary. induction unresolved as [|x l IH]; intros s.
  - simpl. now rewrite app_nil_r.
  - cbn [fold_left fold_right]. rewrite IH. now rewrite !app_assoc.
Qed.

(** the report is a text that depends on the mapping and the list,
    followed by the closing sentences, which depend on the total *)
Lemma summary_closing performance unresolved :
  exists body,
    generate_summary str_of fixed2 performance unresolved
    = body
      ++ (if gt_zero (total_profit performance)
          then "profit" else "loss")
      ++ " of $" ++ fixed2 (total_profit performance) ++ ". "
      ++ (if gt_zero (total_profit performance)
          then "The strategy appears to be profitable with significant gains from well-timed buys and sells."
          else "The portfolio has experienced losses, which may be attributed to some underperforming trades or option expirations.").
Proof.
  unfold generate_summary. rewrite summary_loop.
  fold (total_profit performance).
  eexists. apply closing_shape.
Qed.

Lemma item_is_written (performance : dict) k v :
  In (k, v) performance ->
  Str.contains ("<li><strong>" ++ k ++ "</strong>: ")
    (fold_right (fun item text => summary_item str_of fixed2 (fst item) (snd item) ++ text)
       EmptyString performance) = true.
Proof.
  induction performance as [|[k' v'] l IH]; intros H; [destruct H|].
  cbn [fold_right fst snd]. destruct H as [H | H].
  - inversion H; subst. apply contains_app_l. unfold summary_item.
    rewrite (app_assoc3 "<li><strong>" k "</strong>: ").
    apply contains_start.
  - apply contains_app_r. now apply IH.
Qed.
End Report.

Lemma entry_is_written (unresolved : list string) x :
  In x unresolved ->
  Str.contains ("<li>" ++ x ++ "</li>")
    (fold_right (fun u text => "<li>" ++ u ++ "</li>" ++ text) EmptyString unresolved)
  = true.
Proof.
  induction unresolved as [|y l IH]; intros H; [destruct H|].
  cbn [fold_right]. rewrite (app_assoc3 "<li>" y "</li>").
  destruct H as [-> | H].
  - apply contains_start.
  - apply contains_app_r. now apply IH.
Qed.

End SummaryFacts.

Import SummaryFacts.

(** X13.  The report ends with the sentences of a profit when its total
    is above zero and with those of a loss when it is not.  The total
    is added up with Python's [+], not with a pandas sum: when the
    profit of one record is missing the total is missing, and the
    report closes with the sentences of a loss, whatever the other
    positions earned. *)
Theorem summary_verdict {P : Platform} (str_of fixed2 : num -> string)
        performance unresolved :
  (exists body,
     generate_summary str_of fixed2 performance unresolved
     = body
       ++ (if gt_zero (total_profit performance) then "profit" else "loss")
       ++ " of $" ++ fixed2 (total_profit performance) ++ ". "
       ++ (if gt_zero (total_profit performance)
           then "The strategy appears to be profitable with significant gains from well-timed buys and sells."
           else "The portfolio has experienced losses, which may be attributed to some underperforming trades or option expirations."))
  /\ (missing_total ->
      (exists k v, In (k, v) performance /\ isna (Total_Profit_Loss v) = true) ->
      isna (total_profit performance) = true
      /\ exists body,
           generate_summary str_of fixed2 performance unresolved
           = body ++ "loss of $" ++ fixed2 (total_profit performance)
             ++ ". The portfolio has experienced losses, which may be attributed to some underperforming trades or option expirations.").
Proof.
  destruct (summary_closing str_of fixed2 performance unresolved) as [body E].
  split; [now exists body|].
  intros M (k & v & Hin & Hv).
  pose proof (total_profit_missing performance k v M Hin Hv) as T.
  split; [exact T|]. destruct M as [_ Hg]. rewrite (Hg _ T) in E.
  exists body. exact E.
Qed.

Lemma exact_missing_total : @missing_total Exact.
Proof.
  unfold missing_total. simpl. split.
  - intros [x|] [y|] [H | H]; try discriminate; reflexivity.
  - intros [x|] H; [discriminate | reflexivity].
Qed.

Lemma summary_verdict_witness :
  isna (total_profit
          [("XYZ", record 10 200 20); ("PLTR 01/19/24 C 25", @mkPerf Exact (of_Q 1) NaN NaN)])
  = true
  /\ exists body,
       generate_summary (fun _ => "10") (fun _ => "nan")
         [("XYZ", record 10 200 20); ("PLTR 01/19/24 C 25", @mkPerf Exact (of_Q 1) NaN NaN)] []
       = body ++ "loss of $" ++ "nan"
         ++ ". The portfolio has experienced losses, which may be attributed to some underperforming trades or option expirations.".
Proof.
  apply (proj2 (summary_verdict (P := Exact) (fun _ => "10") (fun _ => "nan")
                  [("XYZ", record 10 200 20);
                   ("PLTR 01/19/24 C 25", @mkPerf Exact (of_Q 1) NaN NaN)] [])).
  - exact exact_missing_total.
  - exists "PLTR 01/19/24 C 25", (@mkPerf Exact (of_Q 1) NaN NaN).
    split; [right; left; reflexivity | reflexivity].
Defined.

(** X14.  The keys of the mapping and the entries of the list go into
    the report as they are, character for character and without any
    escaping of markup: each key after ["<li><strong>"], each entry
    between ["<li>"] and ["</li>"]. *)
Theorem report_writes_keys_verbatim {P : Platform} (str_of fixed2 : num -> string)
        performance unresolved :
  (forall k v, In (k, v) performance ->
     Str.contains ("<li><strong>" ++ k ++ "</strong>: ")
       (generate_summary str_of fixed2 performance unresolved) = true)
  /\ (forall x, In x unresolved ->
        Str.contains ("<li>" ++ x ++ "</li>")
          (generate_summary str_of fixed2 performance unresolved) = true).
Proof.
  split.
  - intros k v H. unfold generate_summary. rewrite summary_loop.
    apply contains_app_l.
    pose proof (item_is_written str_of fixed2 performance k v H) as I.
    destruct unresolved as [|y l]; cbn [is_empty negb].
    + apply contains_app_l, contains_app_r. exact I.
    + apply contains_app_l. rewrite unresolved_loop.
      do 3 apply contains_app_l. apply contains_app_r. exact I.
  - intros x H. unfold generate_summary. rewrite summary_loop.
    apply contains_app_l.
    destruct unresolved as [|y l]; [destruct H|].
    cbn [is_empty negb]. apply contains_app_l. rewrite unresolved_loop.
    apply contains_app_r. now apply entry_is_written.
Qed.

Lemma report_writes_keys_verbatim_witness :
  Str.contains ("<li>" ++ "<script>x</script>" ++ "</li>")
    (generate_summary (P := Exact) (fun _ => "0") (fun _ => "0.00") [] ["<script>x</script>"])
  = true.
Proof.
  apply (proj2 (report_writes_keys_verbatim (P := Exact) (fun _ => "0") (fun _ => "0.00")
                  [] ["<script>x</script>"])).
  left. reflexivity.
Defined.
